(** * Manga slicer backend: the [GET /slice] handler and its image cache

    A shallow embedding of [server.js]: the in-memory [imageCache], the
    periodic sweep that expires its entries, and the [/slice] request
    handler with its two answers (the manifest of slices, or one slice).

    Conventions of the embedding.
    - A JavaScript string is held as the bytes of its UTF-8 encoding.
    - JavaScript numbers are modelled by [number]: [NaN] or an exact
      integer.  Image dimensions, slice indices, byte counts and
      millisecond timestamps are integers far below 2^53, where the
      floating-point operations of the source are exact.
    - The handler is [async]; [slice_handler] is one request running from
      its first line to its response without another request or the sweep
      running in between.  [slice_settled] is the part of a request that
      comes after its download, run on the state of that later moment, for
      what a request does when others overlap it.
    - The collaborators ([fetch], [sharp], the base URL of the process and
      [encodeURIComponent]) are parameters: variables of a section, or an
      argument of the handler for the network. *)

From Stdlib Require Import ZArith String Ascii List Lia.
From stdpp Require Import gmap strings list fin_maps pretty.

Local Open Scope string_scope.
Local Open Scope list_scope.
Local Open Scope Z_scope.

(** ** JavaScript values *)

Module JS.

(** A number of the integer fragment, or NaN. *)
Inductive number : Type :=
| NaN
| Num (z : Z).

(** [a * b] *)
Definition mul (a b : number) : number :=
  match a, b with
  | Num x, Num y => Num (x * y)
  | _, _ => NaN
  end.

(** [a - b] *)
Definition sub (a b : number) : number :=
  match a, b with
  | Num x, Num y => Num (x - y)
  | _, _ => NaN
  end.

(** [Math.min(a, b)]: NaN as soon as one argument is NaN. *)
Definition Math_min (a b : number) : number :=
  match a, b with
  | Num x, Num y => Num (Z.min x y)
  | _, _ => NaN
  end.

(** [a >= b]: false as soon as one operand is NaN. *)
Definition ge (a b : number) : bool :=
  match a, b with
  | Num x, Num y => x >=? y
  | _, _ => false
  end.

(** [a != b] on numbers: true as soon as one operand is NaN. *)
Definition neq (a b : number) : bool :=
  match a, b with
  | Num x, Num y => negb (x =? y)
  | _, _ => true
  end.

(** [Math.ceil(a / b)] for integers [a] and [b <> 0]: Rocq's [/] rounds
    towards minus infinity, so the ceiling is the negated floor of the
    negated quotient. *)
Definition ceil_div (a b : Z) : Z := - ((- a) / b).

(** A string of the program is held as the bytes of its UTF-8 encoding;
    [byte_of] is the value of one byte. *)
Definition byte_of (c : ascii) : Z := Z.of_N (N_of_ascii c).

(** [StrWhiteSpaceChar], the white space and the line terminators that
    [parseInt] and [Number] skip.  Its members of one byte: TAB, LF, VT,
    FF, CR, SP. *)
Definition is_white_space (c : ascii) : bool :=
  let n := Z.of_N (N_of_ascii c) in
  ((9 <=? n) && (n <=? 13)) || (n =? 32).

(** Its member of two bytes: U+00A0, the no-break space (C2 A0). *)
Definition is_white_space2 (c1 c2 : ascii) : bool :=
  (byte_of c1 =? 194) && (byte_of c2 =? 160).

(** Its members of three bytes: U+1680 (E1 9A 80); U+2000 to U+200A
    (E2 80 80 to E2 80 8A); the line and paragraph separators U+2028 and
    U+2029 (E2 80 A8, E2 80 A9); U+202F (E2 80 AF); U+205F (E2 81 9F);
    U+3000 (E3 80 80); and U+FEFF, the byte order mark (EF BB BF). *)
Definition is_white_space3 (c1 c2 c3 : ascii) : bool :=
  let a := byte_of c1 in
  let b := byte_of c2 in
  let c := byte_of c3 in
  ((a =? 225) && (b =? 154) && (c =? 128))
  || ((a =? 226) && (b =? 128)
      && (((128 <=? c) && (c <=? 138)) || (c =? 168) || (c =? 169) || (c =? 175)))
  || ((a =? 226) && (b =? 129) && (c =? 159))
  || ((a =? 227) && (b =? 128) && (c =? 128))
  || ((a =? 239) && (b =? 187) && (c =? 191)).

(** The string without its leading white space, one character of one, two
    or three bytes at a time; the first byte tells how many bytes to look
    at. *)
Fixpoint trim_start (s : string) : string :=
  match s with
  | EmptyString => EmptyString
  | String c1 s1 =>
      if is_white_space c1 then trim_start s1
      else if byte_of c1 =? 194 then
        match s1 with
        | String c2 s2 => if is_white_space2 c1 c2 then trim_start s2 else s
        | EmptyString => s
        end
      else if (225 <=? byte_of c1) && (byte_of c1 <=? 239) then
        match s1 with
        | String c2 (String c3 s3) =>
            if is_white_space3 c1 c2 c3 then trim_start s3 else s
        | _ => s
        end
      else s
  end.

(** The string without its trailing white space: what is left from some
    byte on is dropped when it is white space to the end. *)
Fixpoint trim_end (s : string) : string :=
  match s with
  | EmptyString => EmptyString
  | String c s' =>
      match trim_start s with
      | EmptyString => EmptyString
      | String _ _ => String c (trim_end s')
      end
  end.

(** The value of a character as a digit: 0-9, then a-z and A-Z for 10-35. *)
Definition digit_value (c : ascii) : option Z :=
  let n := Z.of_N (N_of_ascii c) in
  if (48 <=? n) && (n <=? 57) then Some (n - 48)
  else if (97 <=? n) && (n <=? 122) then Some (n - 97 + 10)
  else if (65 <=? n) && (n <=? 90) then Some (n - 65 + 10)
  else None.

(** The longest prefix of [s] made of digits of radix [R], as an integer;
    [acc] is [None] until a first digit has been read. *)
Fixpoint parse_digits (R : Z) (s : string) (acc : option Z) : option Z :=
  match s with
  | String c s' =>
      match digit_value c with
      | Some d =>
          if d <? R then parse_digits R s' (Some (default 0 acc * R + d))
          else acc
      | None => acc
      end
  | EmptyString => acc
  end.

(** [parseInt(s)] with no radix argument: leading white space (all of
    [StrWhiteSpaceChar]), an optional sign, an optional [0x] prefix that
    selects radix 16, then the longest run of digits; NaN when that run is
    empty.  The integer is exact (the source rounds it to a double, which
    differs above 2^53 only), and the negative zero of ["-0"] is the
    integer zero. *)
Definition parseInt (s : string) : number :=
  let s1 := trim_start s in
  let '(sign, s2) :=
    match s1 with
    | String "-" r => (-1, r)
    | String "+" r => (1, r)
    | _ => (1, s1)
    end in
  let '(R, s3) :=
    match s2 with
    | String "0" (String "x" r) => (16, r)
    | String "0" (String "X" r) => (16, r)
    | _ => (10, s2)
    end in
  match parse_digits R s3 None with
  | Some n => Num (sign * n)
  | None => NaN
  end.

Definition trim (s : string) : string :=
  trim_end (trim_start s).

Fixpoint all_decimal_digits (s : string) : bool :=
  match s with
  | String c s' =>
      match digit_value c with
      | Some d => (d <? 10) && all_decimal_digits s'
      | None => false
      end
  | EmptyString => true
  end.

(** [Number(s)], the conversion a loose comparison applies to a string
    operand, on the strings a [content-length] header can hold: white
    space is trimmed, the empty string is 0, a run of decimal digits with
    an optional sign is its value.  Every other string is NaN here: the
    forms with a fraction, an exponent or a radix prefix, which the HTTP
    parser does not let through in this header, are not modelled. *)
Definition StringToNumber (s : string) : number :=
  let t := trim s in
  match t with
  | EmptyString => Num 0
  | String "-" r =>
      if negb (String.eqb r EmptyString) && all_decimal_digits r
      then Num (- default 0 (parse_digits 10 r None)) else NaN
  | String "+" r =>
      if negb (String.eqb r EmptyString) && all_decimal_digits r
      then Num (default 0 (parse_digits 10 r None)) else NaN
  | _ =>
      if all_decimal_digits t
      then Num (default 0 (parse_digits 10 t None)) else NaN
  end.

End JS.

Export JS(number, NaN, Num, parseInt).

(** ** Data of the server *)

(** A [Buffer]: the raw bytes of an image. *)
Definition Buffer : Type := list Byte.byte.

(** What a promise settles to: its value, or the message of the error it
    rejects with.  Also the outcome of a call that may throw. *)
Inductive outcome (A : Type) : Type :=
| Resolved (a : A)
| Rejected (message : string).
Arguments Resolved {A} a.
Arguments Rejected {A} message.

(** The part of a [node-fetch] response the handler reads. *)
Record Response : Type := mkResponse {
  ok : bool;
  status : Z;
  statusText : string;
  content_length : option string;   (* [response.headers.get('content-length')] *)
  body : outcome Buffer             (* [await response.buffer()] *)
}.

(** The network: what [fetch(url, {headers})] settles to. *)
Definition Network : Type := string -> outcome Response.

(** A value of [imageCache]: [{ buffer, timestamp }]. *)
Record CacheEntry : Type := mkEntry {
  buffer : Buffer;
  timestamp : Z
}.

(** One element of the manifest's [slices] array. *)
Record SliceInfo : Type := mkSlice {
  slice_index : Z;
  slice_url : string;
  slice_y : Z;
  slice_height : Z;
  slice_width : Z
}.

(** The JSON manifest of line 160. *)
Record Manifest : Type := mkManifest {
  originalWidth : Z;
  originalHeight : Z;
  sliceHeight : Z;
  numSlices : Z;
  slices : list SliceInfo
}.

Inductive JsonBody : Type :=
| ErrorBody (error : string)
| ManifestBody (m : Manifest).

(** What the handler sends: [res.status(s).json(b)], or [res.send(slice)]
    after the two [res.set]. *)
Inductive HttpResponse : Type :=
| RespJson (code : Z) (b : JsonBody)
| RespSend (headers : list (string * string)) (bytes : Buffer).

(** The observable actions of the handler, in the order they happen: the
    console lines with the values they interpolate, and the calls to the
    collaborators. *)
Inductive Event : Type :=
| LogUsingCached (url : string)
| LogDownloading (url : string)
| FetchCall (url : string) (settled : outcome Response)
| WarnContentLength (expected : string) (received : Z)
| LogExtracting (sliceIndex y height : number)
| SharpExtract (buf : Buffer) (left top width height : number)
| ConsoleError (message : string).

(** The state of the process: the cache, and the trace of what happened. *)
Record State : Type := mkState {
  imageCache : gmap string CacheEntry;
  trace : list Event
}.

Definition initial_state : State := mkState ∅ [].

(** ** The handler's effects

    The body of the handler reads and writes the cache, prints, awaits
    promises and may throw: a state monad over [State] whose result is an
    [outcome].  A throw keeps the state reached so far, as in the source,
    where what was written before the throw stays written. *)

Definition M (A : Type) : Type := State -> outcome A * State.

Definition ret {A : Type} (a : A) : M A :=
  fun st => (Resolved a, st).

Definition throw {A : Type} (message : string) : M A :=
  fun st => (Rejected message, st).

Definition bind {A B : Type} (m : M A) (k : A -> M B) : M B :=
  fun st =>
    match m st with
    | (Resolved a, st') => k a st'
    | (Rejected message, st') => (Rejected message, st')
    end.

Notation "'do' x <- m ; k" := (bind m (fun x => k))
  (at level 10, x name, m at level 100, k at level 200).
Notation "m ;; k" := (bind m (fun _ => k))
  (at level 100, k at level 200, right associativity).

(** [await p]: the value of a settled promise, or the throw of its error. *)
Definition await {A : Type} (p : outcome A) : M A :=
  fun st => (p, st).

Definition emit (e : Event) : M unit :=
  fun st => (Resolved tt, mkState (imageCache st) (trace st ++ [e])).

(** [imageCache.has(url)] and [imageCache.get(url)] in one lookup. *)
Definition cache_get (url : string) : M (option CacheEntry) :=
  fun st => (Resolved (imageCache st !! url), st).

(** [imageCache.set(url, entry)] *)
Definition cache_set (url : string) (entry : CacheEntry) : M unit :=
  fun st => (Resolved tt, mkState (<[url := entry]> (imageCache st)) (trace st)).

(** [await fetch(url, { headers })]; the call is recorded with what it
    settled to. *)
Definition fetch (net : Network) (url : string) : M Response :=
  emit (FetchCall url (net url));; await (net url).

(** The query of a request to [/slice]: [req.query.url] and
    [req.query.index], each a string or undefined. *)
Record Request : Type := mkRequest {
  query_url : option string;
  query_index : option string
}.

(** [expectedSize && buffer.length != expectedSize]: the header is there
    and not empty, and its numeric value is not the length received. *)
Definition size_mismatch (expectedSize : option string) (received : Buffer) : bool :=
  match expectedSize with
  | Some s =>
      negb (String.eqb s EmptyString)
      && JS.neq (Num (Z.of_nat (length received))) (JS.StringToNumber s)
  | None => false
  end.
Arguments size_mismatch : simpl never.

(** The events of the size check of a download (lines 94-99): the
    announced size is compared with the received one, and a difference is
    only printed. *)
Definition size_warning (expectedSize : option string) (buf : Buffer) : list Event :=
  match expectedSize with
  | Some s =>
      if size_mismatch (Some s) buf
      then [WarnContentLength s (Z.of_nat (length buf))] else []
  | None => []
  end.

(** Lines 60-103: the image of [url], from the cache when it has the key,
    from the network otherwise; [now] is what [Date.now()] returns when the
    entry is saved. *)
Definition load_image (net : Network) (now : Z) (url : string) : M Buffer :=
  do cached <- cache_get url;
  match cached with
  | Some entry =>
      emit (LogUsingCached url);;
      ret (buffer entry)
  | None =>
      emit (LogDownloading url);;
      do response <- fetch net url;
      if negb (ok response) then
        throw ("Failed to fetch image: " +:+ statusText response
               +:+ " (" +:+ pretty (status response) +:+ ")")
      else
        do buf <- await (body response);
        (match content_length response with
         | Some expectedSize =>
             if size_mismatch (Some expectedSize) buf
             then emit (WarnContentLength expectedSize (Z.of_nat (length buf)))
             else ret tt
         | None => ret tt
         end);;
        cache_set url (mkEntry buf now);;
        ret buf
  end.

(** Lines 88-102 on their own: what a request that missed the cache runs
    once its download has settled, on the state of that moment and with
    [now] the time of the save.  Other requests and the janitor may have
    run while the download was awaited; the cache is not looked at again
    before it is written.  The awaits of lines 87 and 91 are taken as one:
    between them the handler only tests [response.ok], which reads and
    writes nothing of the state. *)
Definition load_settled (now : Z) (url : string) (settled : outcome Response)
    : M Buffer :=
  do response <- await settled;
  if negb (ok response) then
    throw ("Failed to fetch image: " +:+ statusText response
           +:+ " (" +:+ pretty (status response) +:+ ")")
  else
    do buf <- await (body response);
    (match content_length response with
     | Some expectedSize =>
         if size_mismatch (Some expectedSize) buf
         then emit (WarnContentLength expectedSize (Z.of_nat (length buf)))
         else ret tt
     | None => ret tt
     end);;
    cache_set url (mkEntry buf now);;
    ret buf.

(** The [catch] of the handler (lines 168-171): what the [try] answered,
    or a 500 that carries the message of what it threw. *)
Definition catch (r : outcome HttpResponse * State) : HttpResponse * State :=
  match r with
  | (Resolved res, st') => (res, st')
  | (Rejected message, st') =>
      (RespJson 500 (ErrorBody message),
       mkState (imageCache st') (trace st' ++ [ConsoleError message]))
  end.

(** The response of the handler, from what the [try] came to. *)
Definition answer (o : outcome HttpResponse) : HttpResponse :=
  match o with
  | Resolved res => res
  | Rejected message => RespJson 500 (ErrorBody message)
  end.

(** The URLs [fetch] was called with, and the areas [extract] was called
    with, along a trace. *)
Definition fetch_calls (tr : list Event) : list string :=
  omap (fun e => match e with FetchCall url _ => Some url | _ => None end) tr.

Definition extract_calls (tr : list Event)
    : list (Buffer * number * number * number * number) :=
  omap (fun e =>
          match e with
          | SharpExtract buf l t w h => Some (buf, l, t, w, h)
          | _ => None
          end) tr.


Section Server.

(** The constants of the process.  The source fixes [SLICE_HEIGHT] to 1500
    and [CACHE_TTL] to five minutes in milliseconds (see [Process] below);
    nothing in the handler depends on the values. *)
Variable SLICE_HEIGHT : Z.
Variable CACHE_TTL : Z.

(** The base URL the process builds its slice links from (lines 138-145),
    and [encodeURIComponent]. *)
Variable baseUrl : string.
Variable encodeURIComponent : string -> string.

(** [sharp(buffer).metadata()], read for its [width] and [height], and
    [sharp(buffer).extract({left, top, width, height}).jpeg({quality}).toBuffer()]. *)
Variable sharp_metadata : Buffer -> outcome (Z * Z).
Variable sharp_extract_jpeg :
  Buffer -> number -> number -> number -> number -> Z -> outcome Buffer.

(** The janitor (lines 35-42): one run of the interval callback at time
    [now], read once.  Every entry of the map is visited once and the
    expired ones are deleted from the map as the iteration goes; a visit
    deletes its own key only, so the order of the visits does not show. *)
Definition sweep_entry (now : Z) (cache : gmap string CacheEntry)
    (kv : string * CacheEntry) : gmap string CacheEntry :=
  if now - timestamp kv.2 >? CACHE_TTL then delete kv.1 cache else cache.

Definition sweep (now : Z) (st : State) : State :=
  mkState
    (foldl (sweep_entry now) (imageCache st) (map_to_list (imageCache st)))
    (trace st).

(** The manifest loop (lines 147-158): [n] more iterations from index [i]. *)
Fixpoint slices_loop (n : nat) (i : Z) (url : string) (width height : Z)
    : list SliceInfo :=
  match n with
  | O => []
  | S n' =>
      let y := i * SLICE_HEIGHT in
      let sliceHeight := Z.min SLICE_HEIGHT (height - y) in
      mkSlice i
        (baseUrl +:+ "/slice?url=" +:+ encodeURIComponent url
         +:+ "&index=" +:+ pretty i)
        y sliceHeight width
      :: slices_loop n' (i + 1) url width height
  end.

(** Lines 132-166: the manifest of an image of the given dimensions. *)
Definition manifest (url : string) (width height : Z) : Manifest :=
  let numSlices := JS.ceil_div height SLICE_HEIGHT in
  mkManifest width height SLICE_HEIGHT numSlices
    (slices_loop (Z.to_nat numSlices) 0 url width height).

(** Lines 110-129: one slice. *)
Definition slice_branch (buf : Buffer) (index : string) (width height : Z)
    : M HttpResponse :=
  let sliceIndex := parseInt index in
  let y := JS.mul sliceIndex (Num SLICE_HEIGHT) in
  let sliceHeight :=
    JS.Math_min (Num SLICE_HEIGHT) (JS.sub (Num height) y) in
  if JS.ge y (Num height) then
    ret (RespJson 404 (ErrorBody "Slice index out of bounds"))
  else
    emit (LogExtracting sliceIndex y sliceHeight);;
    emit (SharpExtract buf (Num 0) y (Num width) sliceHeight);;
    do slice <- await (sharp_extract_jpeg buf (Num 0) y (Num width) sliceHeight 90);
    ret (RespSend [("Content-Type", "image/jpeg");
                   ("Cache-Control", "public, max-age=31536000")] slice).

(** Lines 105-167: the answer computed from the image. *)
Definition respond (url : string) (index : option string) (buf : Buffer)
    : M HttpResponse :=
  do metadata <- await (sharp_metadata buf);
  let '(width, height) := metadata in
  match index with
  | Some index => slice_branch buf index width height
  | None => ret (RespJson 200 (ManifestBody (manifest url width height)))
  end.

(** The body of the [try] (lines 54-167).  [!url] holds for a missing and
    for an empty [url]. *)
Definition slice_try (net : Network) (now : Z) (req : Request) : M HttpResponse :=
  match query_url req with
  | None | Some EmptyString =>
      ret (RespJson 400 (ErrorBody "Missing url parameter"))
  | Some url =>
      do buf <- load_image net now url;
      respond url (query_index req) buf
  end.

(** [app.get('/slice', ...)]: the [try] and its [catch]. *)
Definition slice_handler (net : Network) (now : Z) (req : Request) (st : State)
    : HttpResponse * State :=
  catch (slice_try net now req st).

(** The rest of a request that missed the cache, from the settled download
    on (lines 88-171): the save, the answer, and the [catch]. *)
Definition slice_settled (now : Z) (url : string) (index : option string)
    (settled : outcome Response) (st : State) : HttpResponse * State :=
  catch ((do buf <- load_settled now url settled; respond url index buf) st).

(** The janitor run at each of [times], in order. *)
Definition sweeps (times : list Z) (st : State) : State :=
  foldl (fun st now => sweep now st) st times.


End Server.

(** The process as the source configures it. *)
Module Process.
Definition SLICE_HEIGHT : Z := 1500.
Definition CACHE_TTL : Z := 5 * 60 * 1000.
End Process.

(** A small stand-in for the codec, used to run the handler on concrete
    requests: an image is two bytes, its width and its height in hundreds
    of pixels.  Like [sharp], [extract] refuses an offset or a size that is
    not a non-negative integer, and an area that leaves the image. *)
Module Demo.

Definition metadata (buf : Buffer) : outcome (Z * Z) :=
  match buf with
  | w :: h :: _ => Resolved (Z.of_N (Byte.to_N w), 100 * Z.of_N (Byte.to_N h))
  | _ => Rejected "Input buffer contains unsupported image format"
  end.

Definition valid_param (name : string) (v : number) : outcome Z :=
  match v with
  | Num z =>
      if 0 <=? z then Resolved z
      else Rejected ("Expected integer for " +:+ name +:+ " but received " +:+ pretty z)
  | NaN => Rejected ("Expected integer for " +:+ name +:+ " but received NaN")
  end.

Definition extract_jpeg (buf : Buffer) (left top width height : number)
    (quality : Z) : outcome Buffer :=
  match valid_param "left" left with
  | Rejected m => Rejected m
  | Resolved l =>
  match valid_param "top" top with
  | Rejected m => Rejected m
  | Resolved t =>
  match valid_param "width" width with
  | Rejected m => Rejected m
  | Resolved w =>
  match valid_param "height" height with
  | Rejected m => Rejected m
  | Resolved h =>
  match metadata buf with
  | Rejected m => Rejected m
  | Resolved (W, H) =>
      if (l + w <=? W) && (t + h <=? H) && (0 <? w) && (0 <? h)
      then Resolved [Byte.xff; Byte.xd8; Byte.xff; Byte.xd9]
      else Rejected "extract_area: bad extract area"
  end end end end end.

(** An image 4 pixels wide and 3200 pixels high. *)
Definition tall : Buffer := [Byte.x04; Byte.x20].

Definition handler : Network -> Z -> Request -> State -> HttpResponse * State :=
  slice_handler Process.SLICE_HEIGHT "http://localhost:3001" (fun s => s)
    metadata extract_jpeg.

(** A network that answers every URL with [tall], announcing [len] bytes. *)
Definition serves (len : option string) : Network :=
  fun _ => Resolved (mkResponse true 200 "OK" len (Resolved tall)).

(** A state whose cache holds [tall] under ["u"], saved at time 0. *)
Definition cached : State :=
  mkState {[ "u" := mkEntry tall 0 ]} [].

End Demo.

(** ** The configuration of the process *)

Module Env.

(** One address of a network interface, as [os.networkInterfaces()] lists
    it: the fields [getLocalIP] reads. *)
Record NetworkInterfaceInfo : Type := mkInfo {
  family : string;
  internal : bool;
  address : string
}.

(** [iface.family === 'IPv4' && !iface.internal] *)
Definition external_IPv4 (iface : NetworkInterfaceInfo) : bool :=
  String.eqb (family iface) "IPv4" && negb (internal iface).

(** The inner loop of [getLocalIP] (lines 17-22): the first address of one
    interface that is IPv4 and not internal, if it has one. *)
Fixpoint first_external (ifaces : list NetworkInterfaceInfo) : option string :=
  match ifaces with
  | [] => None
  | iface :: rest =>
      if external_IPv4 iface then Some (address iface) else first_external rest
  end.

(** [getLocalIP] (lines 14-25), on the interfaces in the order of
    [Object.keys]: the first hit of the inner loop returns, and
    ['localhost'] is the answer when the loops run out. *)
Fixpoint getLocalIP (interfaces : list (string * list NetworkInterfaceInfo))
    : string :=
  match interfaces with
  | [] => "localhost"
  | (name, ifaces) :: rest =>
      match first_external ifaces with
      | Some found => found
      | None => getLocalIP rest
      end
  end.

(** [process.env.PORT || 3001], as the template of line 144 prints it: an
    unset and an empty variable both give 3001. *)
Definition PORT (env_PORT : option string) : string :=
  match env_PORT with
  | Some p => if String.eqb p EmptyString then "3001" else p
  | None => "3001"
  end.

(** [s.replace(/\/$/, '')]: the pattern matches a slash at the very end of
    the string only, and the one match is removed. *)
Fixpoint strip_trailing_slash (s : string) : string :=
  match s with
  | EmptyString => EmptyString
  | String c EmptyString => if Ascii.eqb c "/" then EmptyString else s
  | String c s' => String c (strip_trailing_slash s')
  end.

(** The base URL of the slice links (lines 138-145): the external URL of
    the deployment when the variable is set and not empty, without its
    final slash; the local address and port otherwise. *)
Definition baseUrl (RENDER_EXTERNAL_URL : option string) (LOCAL_IP port : string)
    : string :=
  let local := "http://" +:+ LOCAL_IP +:+ ":" +:+ port in
  match RENDER_EXTERNAL_URL with
  | Some external =>
      if String.eqb external EmptyString then local
      else strip_trailing_slash external
  | None => local
  end.

End Env.

(** A decimal digit, as a character. *)
Definition decimal_char (c : ascii) : Prop :=
  exists d, (d < 10)%N /\ c = pretty_N_char d.

(** A query without a usable [url]: the [!url] of line 56. *)
Definition no_url (req : Request) : Prop :=
  query_url req = None \/ query_url req = Some EmptyString.

(** The messages printed by [console.error] along a trace. *)
Definition console_errors (tr : list Event) : list string :=
  omap (fun e => match e with ConsoleError message => Some message | _ => None end)
    tr.

(** What the [catch] prints for a response: the message of a 500. *)
Definition printed_for (res : HttpResponse) : list string :=
  match res with
  | RespJson 500 (ErrorBody message) => [message]
  | _ => []
  end.

(** ** SliceCalculator: the slices of the manifest *)

(** [tiles a l b]: the bands of [l], in order, start at [a], each begins
    where the one before ends, each is at least one pixel high, and the
    last ends at [b]. *)
Fixpoint tiles (a : Z) (l : list SliceInfo) (b : Z) : Prop :=
  match l with
  | [] => a = b
  | s :: l' => slice_y s = a /\ 0 < slice_height s /\ tiles (a + slice_height s) l' b
  end.

Definition sum_heights (l : list SliceInfo) : Z :=
  foldr (fun s acc => slice_height s + acc) 0 l.

Lemma tiles_sum_heights (l : list SliceInfo) : forall a b,
  tiles a l b -> sum_heights l = b - a.
Proof.
  induction l as [|s l IH]; simpl; intros a b H.
  - lia.
  - destruct H as (_ & _ & H). rewrite (IH _ _ H). lia.
Qed.

Lemma ceil_div_bounds (a b : Z) :
  0 < b -> (JS.ceil_div a b - 1) * b < a <= JS.ceil_div a b * b.
Proof.
  intros Hb. unfold JS.ceil_div.
  pose proof (Z.div_mod (- a) b ltac:(lia)) as Hdm.
  pose proof (Z.mod_pos_bound (- a) b Hb) as Hr.
  nia.
Qed.

Lemma ceil_div_unique (a b n : Z) :
  0 < b -> (n - 1) * b < a <= n * b -> JS.ceil_div a b = n.
Proof.
  intros Hb Hn. pose proof (ceil_div_bounds a b Hb). nia.
Qed.

Section SliceCalculator.

Variable SLICE_HEIGHT : Z.
Variable baseUrl : string.
Variable encodeURIComponent : string -> string.
Hypothesis SLICE_HEIGHT_pos : 0 < SLICE_HEIGHT.

Abbreviation loop := (slices_loop SLICE_HEIGHT baseUrl encodeURIComponent).

Lemma slices_loop_length (n : nat) : forall i url width height,
  length (loop n i url width height) = n.
Proof. induction n; simpl; intros; [reflexivity | by rewrite IHn]. Qed.

Lemma slices_loop_lookup (n : nat) : forall i url width height (k : nat) s,
  loop n i url width height !! k = Some s ->
  slice_index s = i + Z.of_nat k
  /\ slice_y s = (i + Z.of_nat k) * SLICE_HEIGHT
  /\ slice_height s = Z.min SLICE_HEIGHT (height - (i + Z.of_nat k) * SLICE_HEIGHT)
  /\ slice_width s = width.
Proof.
  induction n as [|n IH]; simpl; intros i url width height k s H.
  - discriminate.
  - destruct k as [|k]; simpl in H.
    + inversion H; subst; simpl. rewrite Z.add_0_r. auto.
    + apply IH in H. replace (i + Z.of_nat (S k)) with (i + 1 + Z.of_nat k) by lia.
      exact H.
Qed.

Lemma slices_loop_tiles (n : nat) : forall i url width height,
  (0 < n)%nat ->
  (i + Z.of_nat n - 1) * SLICE_HEIGHT < height <= (i + Z.of_nat n) * SLICE_HEIGHT ->
  tiles (i * SLICE_HEIGHT) (loop n i url width height) height.
Proof.
  induction n as [|n IH]; intros i url width height Hn Hb; [lia|].
  destruct n as [|n].
  - simpl. split; [reflexivity|]. split; lia.
  - change (loop (S (S n)) i url width height)
      with (mkSlice i
              (baseUrl +:+ "/slice?url=" +:+ encodeURIComponent url
               +:+ "&index=" +:+ pretty i)
              (i * SLICE_HEIGHT)
              (Z.min SLICE_HEIGHT (height - i * SLICE_HEIGHT)) width
            :: loop (S n) (i + 1) url width height).
    cbn [tiles slice_y slice_height].
    assert (Hfull : Z.min SLICE_HEIGHT (height - i * SLICE_HEIGHT) = SLICE_HEIGHT)
      by (apply Z.min_l; nia).
    rewrite Hfull. split; [reflexivity|]. split; [lia|].
    replace (i * SLICE_HEIGHT + SLICE_HEIGHT) with ((i + 1) * SLICE_HEIGHT) by lia.
    apply IH; [lia|]. split; nia.
Qed.

End SliceCalculator.

(** C1. For every [height > 0] and [SLICE_HEIGHT > 0] the slices of the
    manifest partition [0, height): there are [ceil(height / SLICE_HEIGHT)]
    of them; the slice at position [k] has index [k], starts at
    [k * SLICE_HEIGHT] and is [min(SLICE_HEIGHT, height - y)] high, which is
    positive; the first starts at 0, each next one starts where the
    previous one ends, the last ends at [height]; the heights sum to
    [height]. *)
Theorem manifest_slices_partition
    (SLICE_HEIGHT : Z) (baseUrl : string) (encodeURIComponent : string -> string)
    (url : string) (width height : Z) :
  0 < height -> 0 < SLICE_HEIGHT ->
  let m := manifest SLICE_HEIGHT baseUrl encodeURIComponent url width height in
  numSlices m = JS.ceil_div height SLICE_HEIGHT
  /\ (numSlices m - 1) * SLICE_HEIGHT < height <= numSlices m * SLICE_HEIGHT
  /\ length (slices m) = Z.to_nat (numSlices m)
  /\ (forall (k : nat) s, slices m !! k = Some s ->
        slice_index s = Z.of_nat k
        /\ slice_y s = Z.of_nat k * SLICE_HEIGHT
        /\ slice_height s = Z.min SLICE_HEIGHT (height - slice_y s)
        /\ 0 < slice_height s)
  /\ tiles 0 (slices m) height
  /\ sum_heights (slices m) = height.
Proof.
  intros Hh Hs m.
  pose proof (ceil_div_bounds height SLICE_HEIGHT Hs) as Hn.
  assert (Hn1 : 1 <= JS.ceil_div height SLICE_HEIGHT) by nia.
  assert (Ht : tiles 0 (slices m) height).
  { subst m. cbn [manifest slices].
    change 0 with (0 * SLICE_HEIGHT) at 1.
    apply slices_loop_tiles; [assumption | lia |].
    rewrite Z2Nat.id by lia. rewrite Z.add_0_l. exact Hn. }
  split; [reflexivity|]. split; [exact Hn|].
  split; [apply slices_loop_length|].
  split; [|split; [exact Ht|]].
  - intros k s Hk. subst m. cbn [manifest slices] in Hk.
    pose proof (lookup_lt_Some _ _ _ Hk) as Hlt.
    rewrite slices_loop_length in Hlt.
    apply slices_loop_lookup in Hk. destruct Hk as (Hi & Hy & Hb & _).
    rewrite Z.add_0_l in Hi, Hy, Hb.
    rewrite Hi, Hy, Hb. repeat split; try reflexivity.
    apply Z.min_glb_lt; [assumption|]. nia.
  - rewrite (tiles_sum_heights _ _ _ Ht). lia.
Qed.

Lemma manifest_slices_partition_witness :
  let m := manifest Process.SLICE_HEIGHT "http://localhost:3001" (fun s => s) "u" 4 3200 in
  numSlices m = JS.ceil_div 3200 Process.SLICE_HEIGHT
  /\ (numSlices m - 1) * Process.SLICE_HEIGHT < 3200 <= numSlices m * Process.SLICE_HEIGHT
  /\ length (slices m) = Z.to_nat (numSlices m)
  /\ (forall (k : nat) s, slices m !! k = Some s ->
        slice_index s = Z.of_nat k
        /\ slice_y s = Z.of_nat k * Process.SLICE_HEIGHT
        /\ slice_height s = Z.min Process.SLICE_HEIGHT (3200 - slice_y s)
        /\ 0 < slice_height s)
  /\ tiles 0 (slices m) 3200
  /\ sum_heights (slices m) = 3200.
Proof.
  apply (manifest_slices_partition Process.SLICE_HEIGHT "http://localhost:3001"
           (fun s => s) "u" 4 3200); reflexivity.
Defined.

(** The two scenarios of the specification: 3200 pixels in slices of 1500
    give the bands (0,1500), (1500,1500), (3000,200); 1500 pixels give the
    single band (0,1500). *)
Example manifest_3200 :
  let m := manifest Process.SLICE_HEIGHT "http://localhost:3001" (fun s => s) "u" 4 3200 in
  numSlices m = 3
  /\ map (fun s => (slice_y s, slice_height s)) (slices m)
     = [(0, 1500); (1500, 1500); (3000, 200)].
Proof. split; reflexivity. Qed.

Example manifest_1500 :
  let m := manifest Process.SLICE_HEIGHT "http://localhost:3001" (fun s => s) "u" 4 1500 in
  numSlices m = 1
  /\ map (fun s => (slice_y s, slice_height s)) (slices m) = [(0, 1500)].
Proof. split; reflexivity. Qed.

(** ** CacheJanitor *)

Section Janitor.

Variable CACHE_TTL : Z.

Abbreviation entry_step := (sweep_entry CACHE_TTL).

Lemma sweep_fold_absent (now : Z) (l : list (string * CacheEntry)) :
  forall (m : gmap string CacheEntry) k,
  m !! k = None -> foldl (entry_step now) m l !! k = None.
Proof.
  induction l as [|kv l IH]; simpl; intros m k Hk; [assumption|].
  apply IH. unfold sweep_entry. case (_ >? _); [|assumption].
  rewrite lookup_delete, Hk. by case_decide.
Qed.

Lemma sweep_fold_expired (now : Z) (l : list (string * CacheEntry)) :
  forall (m : gmap string CacheEntry) k e,
  (k, e) ∈ l -> now - timestamp e > CACHE_TTL ->
  foldl (entry_step now) m l !! k = None.
Proof.
  induction l as [|kv l IH]; simpl; intros m k e Hin Hexp.
  - by apply elem_of_nil in Hin.
  - apply elem_of_cons in Hin as [<- | Hin].
    + apply sweep_fold_absent. unfold sweep_entry; simpl.
      replace (now - timestamp e >? CACHE_TTL) with true by (symmetry; lia).
      apply lookup_delete_eq.
    + by apply (IH _ _ e).
Qed.

Lemma sweep_fold_fresh (now : Z) (l : list (string * CacheEntry)) :
  forall (m : gmap string CacheEntry) k,
  (forall e, (k, e) ∈ l -> now - timestamp e <= CACHE_TTL) ->
  foldl (entry_step now) m l !! k = m !! k.
Proof.
  induction l as [|[k' e'] l IH]; simpl; intros m k Hfresh; [reflexivity|].
  rewrite IH by (intros e He; apply Hfresh; by right).
  unfold sweep_entry; simpl.
  destruct (now - timestamp e' >? CACHE_TTL) eqn:Hexp; [|reflexivity].
  destruct (decide (k' = k)) as [->|Hne].
  - specialize (Hfresh e' ltac:(by left)). lia.
  - by apply lookup_delete_ne.
Qed.

(** One run of the janitor, key by key. *)
Lemma sweep_lookup (now : Z) (st : State) (k : string) :
  imageCache (sweep CACHE_TTL now st) !! k
  = match imageCache st !! k with
    | Some e => if now - timestamp e >? CACHE_TTL then None else Some e
    | None => None
    end.
Proof.
  unfold sweep; simpl.
  destruct (imageCache st !! k) as [e|] eqn:Hk.
  - destruct (now - timestamp e >? CACHE_TTL) eqn:Hexp.
    + apply (sweep_fold_expired _ _ _ _ e); [|lia].
      by apply elem_of_map_to_list.
    + rewrite sweep_fold_fresh, Hk; [reflexivity|].
      intros e' He'. apply elem_of_map_to_list in He'.
      rewrite Hk in He'. inversion He'; subst. lia.
  - by apply sweep_fold_absent.
Qed.


End Janitor.

(** C7. One run of the janitor at time [now] keeps exactly the entries
    with [now - timestamp <= CACHE_TTL], each under its key with its buffer
    and timestamp as they were, and removes exactly the entries with
    [now - timestamp > CACHE_TTL]; every entry left after the run has
    [now - timestamp <= CACHE_TTL].  The trace is untouched. *)
Theorem sweep_removes_exactly_expired (CACHE_TTL now : Z) (st : State) :
  imageCache (sweep CACHE_TTL now st)
  = filter (fun kv => now - timestamp kv.2 <= CACHE_TTL) (imageCache st)
  /\ trace (sweep CACHE_TTL now st) = trace st
  /\ (forall k e, imageCache st !! k = Some e -> now - timestamp e > CACHE_TTL ->
        imageCache (sweep CACHE_TTL now st) !! k = None)
  /\ (forall k e, imageCache st !! k = Some e -> now - timestamp e <= CACHE_TTL ->
        imageCache (sweep CACHE_TTL now st) !! k = Some e)
  /\ (forall k, imageCache st !! k = None ->
        imageCache (sweep CACHE_TTL now st) !! k = None)
  /\ (forall k e, imageCache (sweep CACHE_TTL now st) !! k = Some e ->
        imageCache st !! k = Some e /\ now - timestamp e <= CACHE_TTL).
Proof.
  split; [|split; [reflexivity|]].
  - apply map_eq; intros k. rewrite sweep_lookup.
    destruct (imageCache st !! k) as [e|] eqn:Hk.
    + destruct (now - timestamp e >? CACHE_TTL) eqn:Hexp; symmetry.
      * apply map_lookup_filter_None. right. intros e' He'.
        rewrite Hk in He'. inversion He'; subst. simpl. lia.
      * apply map_lookup_filter_Some. split; [assumption|]. simpl. lia.
    + symmetry. apply map_lookup_filter_None. by left.
  - repeat split.
    + intros k e Hk Hexp. rewrite sweep_lookup, Hk.
      by replace (now - timestamp e >? CACHE_TTL) with true by (symmetry; lia).
    + intros k e Hk Hfresh. rewrite sweep_lookup, Hk.
      by replace (now - timestamp e >? CACHE_TTL) with false by (symmetry; lia).
    + intros k Hk. by rewrite sweep_lookup, Hk.
    + rewrite sweep_lookup in H.
      destruct (imageCache st !! k) as [e'|]; [|discriminate].
      destruct (now - timestamp e' >? CACHE_TTL); [discriminate|assumption].
    + rewrite sweep_lookup in H.
      destruct (imageCache st !! k) as [e'|]; [|discriminate].
      destruct (now - timestamp e' >? CACHE_TTL) eqn:Hexp; [discriminate|].
      inversion H; subst. lia.
Qed.

Lemma sweep_removes_exactly_expired_witness :
  imageCache (sweep Process.CACHE_TTL 300001 Demo.cached) !! "u" = None
  /\ imageCache (sweep Process.CACHE_TTL 300000 Demo.cached) !! "u"
     = Some (mkEntry Demo.tall 0).
Proof.
  split.
  - apply (proj1 (proj2 (proj2
      (sweep_removes_exactly_expired Process.CACHE_TTL 300001 Demo.cached)))
      "u" (mkEntry Demo.tall 0)); [reflexivity | reflexivity].
  - apply (proj1 (proj2 (proj2 (proj2
      (sweep_removes_exactly_expired Process.CACHE_TTL 300000 Demo.cached))))
      "u" (mkEntry Demo.tall 0)); [reflexivity | discriminate].
Defined.

(** ** ImageStore: the cache check and the fetch *)

Lemma fetch_calls_app (a b : list Event) :
  fetch_calls (a ++ b) = fetch_calls a ++ fetch_calls b.
Proof. apply omap_app. Qed.

Lemma extract_calls_app (a b : list Event) :
  extract_calls (a ++ b) = extract_calls a ++ extract_calls b.
Proof. apply omap_app. Qed.

Section ImageStore.

Variables (net : Network) (now : Z) (url : string) (st : State).

(** A key of the cache is served from the cache, whatever its age. *)
Lemma load_image_hit (entry : CacheEntry) :
  imageCache st !! url = Some entry ->
  load_image net now url st
  = (Resolved (buffer entry),
     mkState (imageCache st) (trace st ++ [LogUsingCached url])).
Proof.
  intros Hhit. unfold load_image, bind, cache_get. rewrite Hhit. reflexivity.
Qed.

Lemma load_image_fetch_rejected (message : string) :
  imageCache st !! url = None -> net url = Rejected message ->
  load_image net now url st
  = (Rejected message,
     mkState (imageCache st)
       (trace st ++ [LogDownloading url; FetchCall url (Rejected message)])).
Proof.
  intros Hmiss Hnet. unfold load_image, bind, cache_get, fetch, await, emit.
  rewrite Hmiss. simpl. rewrite Hnet. simpl. by rewrite <- app_assoc.
Qed.

Lemma load_image_not_ok (response : Response) :
  imageCache st !! url = None -> net url = Resolved response ->
  ok response = false ->
  load_image net now url st
  = (Rejected ("Failed to fetch image: " +:+ statusText response
               +:+ " (" +:+ pretty (status response) +:+ ")"),
     mkState (imageCache st)
       (trace st ++ [LogDownloading url; FetchCall url (Resolved response)])).
Proof.
  intros Hmiss Hnet Hok. unfold load_image, bind, cache_get, fetch, await, emit.
  rewrite Hmiss. simpl. rewrite Hnet. simpl. rewrite Hok. simpl.
  unfold throw. by rewrite <- app_assoc.
Qed.

Lemma load_image_body_rejected (response : Response) (message : string) :
  imageCache st !! url = None -> net url = Resolved response ->
  ok response = true -> body response = Rejected message ->
  load_image net now url st
  = (Rejected message,
     mkState (imageCache st)
       (trace st ++ [LogDownloading url; FetchCall url (Resolved response)])).
Proof.
  intros Hmiss Hnet Hok Hbody.
  unfold load_image, bind, cache_get, fetch, await, emit.
  rewrite Hmiss. simpl. rewrite Hnet. simpl. rewrite Hok. simpl.
  rewrite Hbody. by rewrite <- app_assoc.
Qed.

Lemma load_image_downloaded (response : Response) (buf : Buffer) :
  imageCache st !! url = None -> net url = Resolved response ->
  ok response = true -> body response = Resolved buf ->
  load_image net now url st
  = (Resolved buf,
     mkState (<[url := mkEntry buf now]> (imageCache st))
       (trace st ++ [LogDownloading url; FetchCall url (Resolved response)]
          ++ size_warning (content_length response) buf)).
Proof.
  intros Hmiss Hnet Hok Hbody.
  unfold load_image, bind, cache_get, fetch, await, emit.
  rewrite Hmiss. simpl. rewrite Hnet. simpl. rewrite Hok. simpl.
  rewrite Hbody. unfold size_warning.
  destruct (content_length response) as [expected|]; simpl.
  - destruct (size_mismatch (Some expected) buf); simpl;
      unfold cache_set, ret; simpl; by rewrite <- ?app_assoc.
  - unfold cache_set, ret; simpl. by rewrite <- ?app_assoc.
Qed.

End ImageStore.

(** ** RequestCoordinator: the handler *)

Lemma catch_answer (r : outcome HttpResponse * State) :
  (catch r).1 = answer r.1.
Proof. by destruct r as [[res|message] st']. Qed.

Lemma catch_cache (r : outcome HttpResponse * State) :
  imageCache (catch r).2 = imageCache r.2.
Proof. by destruct r as [[res|message] st']. Qed.

Lemma catch_fetch_calls (r : outcome HttpResponse * State) :
  fetch_calls (trace (catch r).2) = fetch_calls (trace r.2).
Proof.
  destruct r as [[res|message] st']; simpl; [reflexivity|].
  rewrite fetch_calls_app. simpl. apply app_nil_r.
Qed.

Section Handler.

Variables (SLICE_HEIGHT CACHE_TTL : Z).
Variables (baseUrl : string) (encodeURIComponent : string -> string).
Variable sharp_metadata : Buffer -> outcome (Z * Z).
Variable sharp_extract_jpeg :
  Buffer -> number -> number -> number -> number -> Z -> outcome Buffer.

Abbreviation respond_with :=
  (respond SLICE_HEIGHT baseUrl encodeURIComponent sharp_metadata sharp_extract_jpeg).
Abbreviation handler :=
  (slice_handler SLICE_HEIGHT baseUrl encodeURIComponent sharp_metadata
     sharp_extract_jpeg).

(** The answer is computed from the image alone: it leaves the cache as it
    is, calls no [fetch], and does not depend on the state. *)
Lemma respond_frame (url : string) (index : option string) (buf : Buffer) (st : State) :
  imageCache (respond_with url index buf st).2 = imageCache st
  /\ fetch_calls (trace (respond_with url index buf st).2) = fetch_calls (trace st)
  /\ forall st0, (respond_with url index buf st).1 = (respond_with url index buf st0).1.
Proof.
  unfold respond, bind, await.
  destruct (sharp_metadata buf) as [[width height]|message]; [|by repeat split].
  destruct index as [index|]; [|by repeat split].
  unfold slice_branch, bind, await, emit, ret.
  destruct (JS.ge _ _); [by repeat split|]. simpl.
  destruct (sharp_extract_jpeg _ _ _ _ _ _); simpl;
    rewrite !fetch_calls_app; simpl; rewrite !app_nil_r; by repeat split.
Qed.

(** The handler, once the query has a [url]: the image is loaded, then the
    answer is computed from it; what either throws is caught. *)
Lemma handler_via_load (net : Network) (now : Z) (req : Request) (st : State)
    (url : string) :
  query_url req = Some url -> url <> EmptyString ->
  handler net now req st
  = catch (match load_image net now url st with
           | (Resolved buf, st1) => respond_with url (query_index req) buf st1
           | (Rejected message, st1) => (Rejected message, st1)
           end).
Proof.
  intros Hq Hne. unfold slice_handler, slice_try. rewrite Hq.
  destruct url as [|c url]; [congruence|]. reflexivity.
Qed.

Lemma handler_loaded (net : Network) (now : Z) (req : Request) (st st1 : State)
    (url : string) (buf : Buffer) :
  query_url req = Some url -> url <> EmptyString ->
  load_image net now url st = (Resolved buf, st1) ->
  handler net now req st = catch (respond_with url (query_index req) buf st1).
Proof.
  intros Hq Hne Hload. by rewrite (handler_via_load _ _ _ _ url), Hload.
Qed.

Lemma handler_load_failed (net : Network) (now : Z) (req : Request) (st st1 : State)
    (url message : string) :
  query_url req = Some url -> url <> EmptyString ->
  load_image net now url st = (Rejected message, st1) ->
  handler net now req st
  = (RespJson 500 (ErrorBody message),
     mkState (imageCache st1) (trace st1 ++ [ConsoleError message])).
Proof.
  intros Hq Hne Hload. by rewrite (handler_via_load _ _ _ _ url), Hload.
Qed.

(** The handler changes the cache and calls [fetch] only while loading. *)
Lemma handler_frame (net : Network) (now : Z) (req : Request) (st : State)
    (url : string) :
  query_url req = Some url -> url <> EmptyString ->
  imageCache (handler net now req st).2 = imageCache (load_image net now url st).2
  /\ fetch_calls (trace (handler net now req st).2)
     = fetch_calls (trace (load_image net now url st).2).
Proof.
  intros Hq Hne. rewrite (handler_via_load _ _ _ _ url) by assumption.
  rewrite catch_cache, catch_fetch_calls.
  destruct (load_image net now url st) as [[buf|message] st1]; [|by split].
  destruct (respond_frame url (query_index req) buf st1) as (Hc & Hf & _).
  by split.
Qed.

(** A miss calls [fetch] once, with the key, whatever comes back. *)
Lemma load_image_miss_fetches (net : Network) (now : Z) (url : string) (st : State) :
  imageCache st !! url = None ->
  fetch_calls (trace (load_image net now url st).2) = fetch_calls (trace st) ++ [url].
Proof.
  intros Hmiss.
  destruct (net url) as [response|message] eqn:Hnet.
  - destruct (ok response) eqn:Hok.
    + destruct (body response) as [buf|message] eqn:Hbody.
      * rewrite (load_image_downloaded _ _ _ _ response buf) by assumption.
        simpl. rewrite !fetch_calls_app. simpl.
        unfold size_warning. destruct (content_length response); [|reflexivity].
        by destruct (size_mismatch _ _).
      * rewrite (load_image_body_rejected _ _ _ _ response message) by assumption.
        simpl. by rewrite fetch_calls_app.
    + rewrite (load_image_not_ok _ _ _ _ response) by assumption.
      simpl. by rewrite fetch_calls_app.
  - rewrite (load_image_fetch_rejected _ _ _ _ message) by assumption.
    simpl. by rewrite fetch_calls_app.
Qed.

(** Runs of the janitor keep an entry that is not yet expired at any of
    their times, and never touch the trace. *)
Lemma sweeps_trace (times : list Z) : forall st,
  trace (sweeps CACHE_TTL times st) = trace st.
Proof.
  induction times as [|t times IH]; intros st; [reflexivity|].
  unfold sweeps in *; simpl. by rewrite IH.
Qed.

Lemma sweeps_keep_fresh (times : list Z) : forall st url entry,
  imageCache st !! url = Some entry ->
  Forall (fun t => t - timestamp entry <= CACHE_TTL) times ->
  imageCache (sweeps CACHE_TTL times st) !! url = Some entry.
Proof.
  induction times as [|t times IH]; intros st url entry Hhit Hfresh;
    [assumption|].
  inversion Hfresh as [|? ? Ht Hrest]; subst.
  unfold sweeps in *; simpl. apply IH; [|assumption].
  rewrite sweep_lookup, Hhit.
  by replace (t - timestamp entry >? CACHE_TTL) with false by (symmetry; lia).
Qed.

(** A request for a key that is in the cache: the image is the buffer of
    the entry, no [fetch] is called and the cache is left as it is. *)
Lemma cached_entry_served (net : Network) (now : Z) (req : Request) (st : State)
    (url : string) (entry : CacheEntry) :
  query_url req = Some url -> url <> EmptyString ->
  imageCache st !! url = Some entry ->
  handler net now req st
  = catch (respond_with url (query_index req) (buffer entry)
             (mkState (imageCache st) (trace st ++ [LogUsingCached url])))
  /\ fetch_calls (trace (handler net now req st).2) = fetch_calls (trace st)
  /\ imageCache (handler net now req st).2 = imageCache st.
Proof.
  intros Hq Hne Hhit.
  pose proof (load_image_hit net now url st entry Hhit) as Hload.
  destruct (handler_frame net now req st url Hq Hne) as (Hc & Hf).
  split; [by apply handler_loaded|].
  rewrite Hc, Hf, Hload. simpl. rewrite fetch_calls_app. simpl.
  by rewrite app_nil_r.
Qed.

(** C3. When the cache holds an entry for the key that was stored within
    the last [CACHE_TTL] (also after any runs of the janitor since), a
    request for the key takes the stored buffer: the image it answers from
    is the buffer of the entry, [fetch] is not called, and the cache stays
    as it is. *)
Theorem cache_hit_within_ttl_no_fetch
    (net : Network) (now : Z) (req : Request) (st : State)
    (url : string) (entry : CacheEntry) (times : list Z) :
  query_url req = Some url -> url <> EmptyString ->
  imageCache st !! url = Some entry ->
  now - timestamp entry <= CACHE_TTL ->
  Forall (fun t => t <= now) times ->
  let st1 := sweeps CACHE_TTL times st in
  load_image net now url st1
  = (Resolved (buffer entry),
     mkState (imageCache st1) (trace st1 ++ [LogUsingCached url]))
  /\ handler net now req st1
     = catch (respond_with url (query_index req) (buffer entry)
                (mkState (imageCache st1) (trace st1 ++ [LogUsingCached url])))
  /\ fetch_calls (trace (handler net now req st1).2) = fetch_calls (trace st)
  /\ imageCache (handler net now req st1).2 = imageCache st1.
Proof.
  intros Hq Hne Hhit Hfresh Htimes st1.
  assert (Hhit1 : imageCache st1 !! url = Some entry).
  { apply sweeps_keep_fresh; [assumption|].
    eapply Forall_impl; [exact Htimes|]. simpl. intros t Ht. lia. }
  split; [by apply load_image_hit|].
  destruct (cached_entry_served net now req st1 url entry
              Hq Hne Hhit1) as (Hh & Hf & Hc).
  split; [exact Hh|]. split; [|exact Hc].
  rewrite Hf. subst st1. by rewrite sweeps_trace.
Qed.

(** C2, as the code has it.  The handler asks the cache only whether it
    has the key: an entry that is in the cache is served without a call to
    [fetch], however old it is.  A stale entry is fetched again only once a
    run of the janitor has removed it: after a run at a time [t] with
    [t - timestamp > CACHE_TTL], the next request for the key calls [fetch]
    once. *)
Theorem stale_entry_served_until_swept
    (net : Network) (now : Z) (req : Request) (st : State)
    (url : string) (entry : CacheEntry) :
  query_url req = Some url -> url <> EmptyString ->
  imageCache st !! url = Some entry ->
  (handler net now req st
   = catch (respond_with url (query_index req) (buffer entry)
              (mkState (imageCache st) (trace st ++ [LogUsingCached url])))
   /\ fetch_calls (trace (handler net now req st).2) = fetch_calls (trace st))
  /\ (forall t, t - timestamp entry > CACHE_TTL ->
        fetch_calls (trace (handler net now req (sweep CACHE_TTL t st)).2)
        = fetch_calls (trace st) ++ [url]).
Proof.
  intros Hq Hne Hhit. split.
  - destruct (cached_entry_served net now req st url entry
                Hq Hne Hhit) as (Hh & Hf & _).
    by split.
  - intros t Hexp.
    destruct (handler_frame net now req (sweep CACHE_TTL t st) url Hq Hne)
      as (_ & Hf).
    rewrite Hf. rewrite load_image_miss_fetches; [reflexivity|].
    rewrite sweep_lookup, Hhit.
    by replace (t - timestamp entry >? CACHE_TTL) with true by (symmetry; lia).
Qed.

(** C8. Two requests with the same query that are both served from a cache
    entry holding the same buffer get the same response, whatever else
    differs between the two states, the two times and the two networks:
    the same manifest ([numSlices], [originalWidth], [originalHeight] and
    the slices), or the same bytes for the same index.  The codec is a
    function of the buffer and of the area. *)
Theorem same_entry_same_response
    (net1 net2 : Network) (now1 now2 : Z) (req : Request) (st1 st2 : State)
    (url : string) (entry1 entry2 : CacheEntry) :
  query_url req = Some url -> url <> EmptyString ->
  imageCache st1 !! url = Some entry1 ->
  imageCache st2 !! url = Some entry2 ->
  buffer entry1 = buffer entry2 ->
  (handler net1 now1 req st1).1 = (handler net2 now2 req st2).1.
Proof.
  intros Hq Hne Hhit1 Hhit2 Hbuf.
  rewrite (handler_loaded net1 now1 req st1 _ url (buffer entry1) Hq Hne
             (load_image_hit net1 now1 url st1 entry1 Hhit1)).
  rewrite (handler_loaded net2 now2 req st2 _ url (buffer entry2) Hq Hne
             (load_image_hit net2 now2 url st2 entry2 Hhit2)).
  rewrite !catch_answer, Hbuf. f_equal.
  apply (respond_frame url (query_index req) (buffer entry2)).
Qed.

(** ** Where the bytes of the cache come from *)

Lemma state_eta (st : State) : st = mkState (imageCache st) (trace st ++ []).
Proof. destruct st; simpl. by rewrite app_nil_r. Qed.


Lemma load_image_state (net : Network) (now : Z) (url : string) (st : State) :
  exists cache' evs,
    (load_image net now url st).2 = mkState cache' (trace st ++ evs)
    /\ extract_calls evs = []
    /\ forall k e, cache' !! k = Some e ->
         imageCache st !! k = Some e
         \/ exists response, FetchCall k (Resolved response) ∈ evs
              /\ ok response = true /\ body response = Resolved (buffer e).
Proof.
  destruct (imageCache st !! url) as [entry|] eqn:Hk.
  { rewrite (load_image_hit _ _ _ _ entry Hk). simpl.
    exists (imageCache st), [LogUsingCached url]. by repeat split; auto. }
  destruct (net url) as [response|message] eqn:Hnet.
  - destruct (ok response) eqn:Hok.
    + destruct (body response) as [buf|message] eqn:Hbody.
      * rewrite (load_image_downloaded _ _ _ _ response buf) by assumption.
        simpl. eexists _, _. split; [reflexivity|]. split.
        { unfold size_warning. destruct (content_length response); [|reflexivity].
          by destruct (size_mismatch _ _). }
        intros k e Hlook. rewrite lookup_insert in Hlook.
        case_decide as Hkey; [|by left].
        inversion Hlook; subst. right. exists response.
        split; [|by split]. apply elem_of_cons. right. apply elem_of_cons. by left.
      * rewrite (load_image_body_rejected _ _ _ _ response message) by assumption.
        simpl. eexists _, _. by repeat split; auto.
    + rewrite (load_image_not_ok _ _ _ _ response) by assumption.
      simpl. eexists _, _. by repeat split; auto.
  - rewrite (load_image_fetch_rejected _ _ _ _ message) by assumption.
    simpl. eexists _, _. by repeat split; auto.
Qed.

Lemma catch_state (r : outcome HttpResponse * State) :
  exists evs, (catch r).2 = mkState (imageCache r.2) (trace r.2 ++ evs)
              /\ extract_calls evs = [].
Proof.
  destruct r as [[res|message] st']; simpl.
  - exists []. split; [apply state_eta | reflexivity].
  - by eexists.
Qed.




(** C5. A download whose [content-length] header disagrees with the number
    of bytes received does not fail: the warning is printed, the buffer is
    the image of the request, and the response is the one computed from
    that buffer, the manifest or the slice; it is the response the same
    download gets when it announces no length at all. *)
Theorem content_length_mismatch_tolerated
    (net : Network) (now : Z) (req : Request) (st : State)
    (url : string) (response : Response) (buf : Buffer) (expected : string) :
  query_url req = Some url -> url <> EmptyString ->
  imageCache st !! url = None ->
  net url = Resolved response -> ok response = true ->
  body response = Resolved buf ->
  content_length response = Some expected ->
  size_mismatch (Some expected) buf = true ->
  let st1 :=
    mkState (<[url := mkEntry buf now]> (imageCache st))
      (trace st ++ [LogDownloading url; FetchCall url (Resolved response);
                    WarnContentLength expected (Z.of_nat (length buf))]) in
  let silent : Network := fun _ =>
    Resolved (mkResponse true (status response) (statusText response) None
                (Resolved buf)) in
  load_image net now url st = (Resolved buf, st1)
  /\ handler net now req st = catch (respond_with url (query_index req) buf st1)
  /\ (handler net now req st).1 = answer (respond_with url (query_index req) buf st).1
  /\ (handler net now req st).1 = (handler silent now req st).1.
Proof.
  intros Hq Hne Hmiss Hnet Hok Hbody Hlen Hmis st1 silent.
  assert (Hload : load_image net now url st = (Resolved buf, st1)).
  { rewrite (load_image_downloaded _ _ _ _ response buf) by assumption.
    unfold size_warning. by rewrite Hlen, Hmis. }
  pose proof (handler_loaded net now req st st1 url buf Hq Hne Hload) as Hh.
  destruct (respond_frame url (query_index req) buf st1) as (_ & _ & Hindep).
  split; [exact Hload|]. split; [exact Hh|]. split.
  - rewrite Hh, catch_answer. f_equal. apply Hindep.
  - rewrite Hh, catch_answer.
    rewrite (handler_loaded silent now req st _ url buf Hq Hne
               (load_image_downloaded silent now url st _ buf Hmiss eq_refl
                  eq_refl eq_refl)).
    rewrite catch_answer. f_equal. apply Hindep.
Qed.

(** C6. When the key is not in the cache and the fetch fails, the handler
    answers 500 with the message of the failure in [{error}], and the cache
    is what it was before the request.  The failure is a rejected [fetch],
    a response whose status is not a success (the message then names the
    status), or a body that cannot be read. *)
Theorem fetch_failure_500_cache_unchanged
    (net : Network) (now : Z) (req : Request) (st : State) (url : string) :
  query_url req = Some url -> url <> EmptyString ->
  imageCache st !! url = None ->
  (forall message, net url = Rejected message ->
     (handler net now req st).1 = RespJson 500 (ErrorBody message)
     /\ imageCache (handler net now req st).2 = imageCache st)
  /\ (forall response, net url = Resolved response -> ok response = false ->
        (handler net now req st).1
        = RespJson 500
            (ErrorBody ("Failed to fetch image: " +:+ statusText response
                        +:+ " (" +:+ pretty (status response) +:+ ")"))
        /\ imageCache (handler net now req st).2 = imageCache st)
  /\ (forall response message, net url = Resolved response ->
        ok response = true -> body response = Rejected message ->
        (handler net now req st).1 = RespJson 500 (ErrorBody message)
        /\ imageCache (handler net now req st).2 = imageCache st).
Proof.
  intros Hq Hne Hmiss.
  assert (Hfail : forall message st1,
            load_image net now url st = (Rejected message, st1) ->
            imageCache st1 = imageCache st ->
            (handler net now req st).1 = RespJson 500 (ErrorBody message)
            /\ imageCache (handler net now req st).2 = imageCache st).
  { intros message st1 Hload Hsame.
    rewrite (handler_load_failed net now req st st1 url message
               Hq Hne Hload).
    by split. }
  split; [|split].
  - intros message Hnet.
    by apply (Hfail _ _ (load_image_fetch_rejected net now url st message Hmiss Hnet)).
  - intros response Hnet Hok.
    by apply (Hfail _ _ (load_image_not_ok net now url st response Hmiss Hnet Hok)).
  - intros response message Hnet Hok Hbody.
    by apply (Hfail _ _ (load_image_body_rejected net now url st response message
                           Hmiss Hnet Hok Hbody)).
Qed.


End Handler.

(** ** The slice branch *)

Section SliceBranch.

Variables (SLICE_HEIGHT : Z).
Variables (baseUrl : string) (encodeURIComponent : string -> string).
Variable sharp_metadata : Buffer -> outcome (Z * Z).
Variable sharp_extract_jpeg :
  Buffer -> number -> number -> number -> number -> Z -> outcome Buffer.

Abbreviation handler :=
  (slice_handler SLICE_HEIGHT baseUrl encodeURIComponent sharp_metadata
     sharp_extract_jpeg).

Variables (net : Network) (now : Z) (req : Request) (st st1 : State).
Variables (url index : string) (buf : Buffer) (width height : Z).

(** The request reaches the slice branch: it names a [url] and an [index],
    the image was loaded and the codec read its dimensions. *)
Hypothesis Hurl : query_url req = Some url.
Hypothesis Hurl_ne : url <> EmptyString.
Hypothesis Hindex : query_index req = Some index.
Hypothesis Hload : load_image net now url st = (Resolved buf, st1).
Hypothesis Hmeta : sharp_metadata buf = Resolved (width, height).

Lemma slice_request_runs_branch :
  handler net now req st
  = catch (slice_branch SLICE_HEIGHT sharp_extract_jpeg buf index width height st1).
Proof.
  rewrite (handler_loaded _ _ _ _ _ net now req st st1 url buf Hurl Hurl_ne Hload).
  unfold respond, bind, await. by rewrite Hmeta, Hindex.
Qed.

Lemma loaded_no_extract : extract_calls (trace st1) = extract_calls (trace st).
Proof.
  destruct (load_image_state net now url st) as (cache' & evs & Hst & Hnone & _).
  rewrite Hload in Hst. simpl in Hst. rewrite Hst. simpl.
  by rewrite extract_calls_app, Hnone, app_nil_r.
Qed.

(** The branch past its bounds check: the extraction is asked for, and the
    response is what the codec makes of it. *)
Lemma slice_branch_extracts (y band : number) :
  JS.mul (parseInt index) (Num SLICE_HEIGHT) = y ->
  JS.Math_min (Num SLICE_HEIGHT) (JS.sub (Num height) y) = band ->
  JS.ge y (Num height) = false ->
  extract_calls (trace (handler net now req st).2)
  = extract_calls (trace st) ++ [(buf, Num 0, y, Num width, band)]
  /\ (handler net now req st).1
     = match sharp_extract_jpeg buf (Num 0) y (Num width) band 90 with
       | Resolved bytes =>
           RespSend [("Content-Type", "image/jpeg");
                     ("Cache-Control", "public, max-age=31536000")] bytes
       | Rejected message => RespJson 500 (ErrorBody message)
       end.
Proof.
  intros Hy Hband Hge. rewrite slice_request_runs_branch.
  unfold slice_branch. rewrite Hy, Hband, Hge.
  unfold bind, await, emit, ret. simpl.
  destruct (sharp_extract_jpeg buf (Num 0) y (Num width) band 90); simpl;
    rewrite ?extract_calls_app, loaded_no_extract; simpl;
    rewrite ?app_nil_r; by split.
Qed.

(** C4. On a request with an [index]: when [index * SLICE_HEIGHT] is at or
    past the height of the image, the handler answers 404 with
    [{error: "Slice index out of bounds"}] and asks for no extraction; when
    the index is [numSlices - 1], the handler asks the codec for the band
    that starts at [(numSlices - 1) * SLICE_HEIGHT] and is
    [height - (numSlices - 1) * SLICE_HEIGHT] high, a band inside the image,
    and answers with the bytes the codec returns for it. *)
Theorem slice_index_bounds :
  0 < height -> 0 < SLICE_HEIGHT ->
  (forall i, parseInt index = Num i -> i * SLICE_HEIGHT >= height ->
     handler net now req st
     = (RespJson 404 (ErrorBody "Slice index out of bounds"), st1)
     /\ extract_calls (trace (handler net now req st).2) = extract_calls (trace st))
  /\ (parseInt index = Num (JS.ceil_div height SLICE_HEIGHT - 1) ->
      let y := (JS.ceil_div height SLICE_HEIGHT - 1) * SLICE_HEIGHT in
      let band := height - y in
      0 <= y /\ 0 < band <= SLICE_HEIGHT /\ y + band = height
      /\ extract_calls (trace (handler net now req st).2)
         = extract_calls (trace st) ++ [(buf, Num 0, Num y, Num width, Num band)]
      /\ forall bytes,
           sharp_extract_jpeg buf (Num 0) (Num y) (Num width) (Num band) 90
           = Resolved bytes ->
           (handler net now req st).1
           = RespSend [("Content-Type", "image/jpeg");
                       ("Cache-Control", "public, max-age=31536000")] bytes).
Proof.
  intros Hh Hs. split.
  - intros i Hparse Hout.
    assert (Hres : handler net now req st
                   = (RespJson 404 (ErrorBody "Slice index out of bounds"), st1)).
    { rewrite slice_request_runs_branch. unfold slice_branch. rewrite Hparse.
      cbn [JS.mul JS.ge].
      by replace (i * SLICE_HEIGHT >=? height) with true by (symmetry; lia). }
    split; [exact Hres|]. rewrite Hres. apply loaded_no_extract.
  - intros Hparse y band.
    pose proof (ceil_div_bounds height SLICE_HEIGHT Hs) as Hn.
    assert (Hn1 : 1 <= JS.ceil_div height SLICE_HEIGHT) by nia.
    assert (Hy : 0 <= y) by (subst y; apply Z.mul_nonneg_nonneg; lia).
    assert (Hband : 0 < band <= SLICE_HEIGHT) by (subst band y; lia).
    destruct (slice_branch_extracts (Num y) (Num band)) as (Hcalls & Hres).
    { by rewrite Hparse. }
    { cbn [JS.sub JS.Math_min]. f_equal. subst band. lia. }
    { cbn [JS.ge]. subst y. lia. }
    split; [exact Hy|]. split; [exact Hband|]. split; [subst band; lia|].
    split; [exact Hcalls|].
    intros bytes Hbytes. by rewrite Hres, Hbytes.
Qed.

(** C9. On a request whose [index] parses to NaN or to a negative integer
    (for an image of positive height), the bounds check [y >= height] is
    false, so the answer is not the 404: the handler asks the codec for an
    extraction whose [top] is NaN or negative, and, the codec refusing such
    an offset by throwing, the request ends in the [catch] with a 500 that
    carries the codec's message. *)
Theorem invalid_index_fails_500 :
  0 < height -> 0 < SLICE_HEIGHT ->
  (parseInt index = NaN \/ exists i, parseInt index = Num i /\ i < 0) ->
  (forall top band, (top = NaN \/ exists z, top = Num z /\ z < 0) ->
     exists message,
       sharp_extract_jpeg buf (Num 0) top (Num width) band 90 = Rejected message) ->
  let y := JS.mul (parseInt index) (Num SLICE_HEIGHT) in
  let band := JS.Math_min (Num SLICE_HEIGHT) (JS.sub (Num height) y) in
  JS.ge y (Num height) = false
  /\ (y = NaN \/ exists z, y = Num z /\ z < 0)
  /\ extract_calls (trace (handler net now req st).2)
     = extract_calls (trace st) ++ [(buf, Num 0, y, Num width, band)]
  /\ (exists message,
        sharp_extract_jpeg buf (Num 0) y (Num width) band 90 = Rejected message
        /\ (handler net now req st).1 = RespJson 500 (ErrorBody message))
  /\ (handler net now req st).1
     <> RespJson 404 (ErrorBody "Slice index out of bounds").
Proof.
  intros Hh Hs Hbad Hcodec y band.
  assert (Htop : y = NaN \/ exists z, y = Num z /\ z < 0).
  { subst y. destruct Hbad as [-> | (i & -> & Hi)]; [by left|].
    right. exists (i * SLICE_HEIGHT). split; [reflexivity | nia]. }
  assert (Hge : JS.ge y (Num height) = false).
  { destruct Htop as [-> | (z & -> & Hz)]; [reflexivity|]. cbn [JS.ge]. lia. }
  destruct (slice_branch_extracts y band eq_refl eq_refl Hge) as (Hcalls & Hres).
  destruct (Hcodec y band Htop) as (message & Hrej).
  rewrite Hrej in Hres.
  split; [exact Hge|]. split; [exact Htop|]. split; [exact Hcalls|].
  split; [by exists message|]. rewrite Hres. discriminate.
Qed.

End SliceBranch.

(** ** The handler on concrete requests *)

Lemma demo_extract_refuses_bad_top (buf : Buffer) (width : Z) (top band : number) :
  (top = NaN \/ exists z, top = Num z /\ z < 0) ->
  exists message,
    Demo.extract_jpeg buf (Num 0) top (Num width) band 90 = Rejected message.
Proof.
  intros [-> | (z & -> & Hz)]; unfold Demo.extract_jpeg; simpl.
  - by eexists.
  - replace (0 <=? z) with false by (symmetry; lia). by eexists.
Qed.

Lemma cache_hit_within_ttl_no_fetch_witness :
  let st1 := sweeps Process.CACHE_TTL [60000; 120000] Demo.cached in
  fetch_calls
    (trace (Demo.handler (Demo.serves None) 120000 (mkRequest (Some "u") None) st1).2)
  = []
  /\ imageCache
       (Demo.handler (Demo.serves None) 120000 (mkRequest (Some "u") None) st1).2
     = imageCache st1.
Proof.
  refine (proj2 (proj2
    (cache_hit_within_ttl_no_fetch Process.SLICE_HEIGHT Process.CACHE_TTL
       "http://localhost:3001" (fun s => s) Demo.metadata Demo.extract_jpeg
       (Demo.serves None) 120000 (mkRequest (Some "u") None) Demo.cached
       "u" (mkEntry Demo.tall 0) [60000; 120000] _ _ _ _ _))).
  - reflexivity.
  - discriminate.
  - reflexivity.
  - vm_compute. discriminate.
  - repeat constructor; lia.
Defined.

(** C2, as stated, fails.  The cache holds an entry for ["u"] saved at time
    0; at time 1000000 it is older than [CACHE_TTL] and the janitor has not
    run.  The request calls no [fetch] and is answered with the manifest of
    the stale image. *)
Lemma stale_entry_not_refetched :
  let req := mkRequest (Some "u") None in
  let res := Demo.handler (Demo.serves None) 1000000 req Demo.cached in
  imageCache Demo.cached !! "u" = Some (mkEntry Demo.tall 0)
  /\ 1000000 - 0 > Process.CACHE_TTL
  /\ fetch_calls (trace res.2) = []
  /\ trace res.2 = [LogUsingCached "u"]
  /\ res.1
     = RespJson 200
         (ManifestBody
            (manifest Process.SLICE_HEIGHT "http://localhost:3001" (fun s => s)
               "u" 4 3200)).
Proof. repeat split. Qed.

Lemma stale_entry_served_until_swept_witness :
  let req := mkRequest (Some "u") None in
  fetch_calls (trace (Demo.handler (Demo.serves None) 1000000 req Demo.cached).2)
  = []
  /\ fetch_calls
       (trace (Demo.handler (Demo.serves None) 1000000 req
                 (sweep Process.CACHE_TTL 900000 Demo.cached)).2)
     = ["u"].
Proof.
  pose proof
    (stale_entry_served_until_swept Process.SLICE_HEIGHT Process.CACHE_TTL
       "http://localhost:3001" (fun s => s) Demo.metadata Demo.extract_jpeg
       (Demo.serves None) 1000000 (mkRequest (Some "u") None) Demo.cached
       "u" (mkEntry Demo.tall 0) eq_refl ltac:(discriminate) eq_refl)
    as [[_ Hserved] Hswept].
  split; [exact Hserved|]. apply (Hswept 900000). reflexivity.
Defined.

Lemma same_entry_same_response_witness :
  (Demo.handler (Demo.serves None) 10 (mkRequest (Some "u") (Some "1")) Demo.cached).1
  = (Demo.handler (fun _ => Rejected "offline") 200000
       (mkRequest (Some "u") (Some "1"))
       (mkState {[ "u" := mkEntry Demo.tall 0; "v" := mkEntry [] 7 ]}
          [LogUsingCached "u"])).1.
Proof.
  refine (same_entry_same_response Process.SLICE_HEIGHT
            "http://localhost:3001" (fun s => s) Demo.metadata Demo.extract_jpeg
            _ _ 10 200000 (mkRequest (Some "u") (Some "1")) _ _
            "u" (mkEntry Demo.tall 0) (mkEntry Demo.tall 0) _ _ _ _ _).
  - reflexivity.
  - discriminate.
  - reflexivity.
  - vm_compute. reflexivity.
  - reflexivity.
Defined.

Lemma content_length_mismatch_tolerated_witness :
  let req := mkRequest (Some "u") None in
  load_image (Demo.serves (Some "3")) 5 "u" initial_state
  = (Resolved Demo.tall,
     mkState {[ "u" := mkEntry Demo.tall 5 ]}
       [LogDownloading "u";
        FetchCall "u" (Demo.serves (Some "3") "u");
        WarnContentLength "3" 2])
  /\ (Demo.handler (Demo.serves (Some "3")) 5 req initial_state).1
     = (Demo.handler (Demo.serves None) 5 req initial_state).1.
Proof.
  pose proof
    (content_length_mismatch_tolerated Process.SLICE_HEIGHT
       "http://localhost:3001" (fun s => s) Demo.metadata Demo.extract_jpeg
       (Demo.serves (Some "3")) 5 (mkRequest (Some "u") None) initial_state
       "u" (mkResponse true 200 "OK" (Some "3") (Resolved Demo.tall)) Demo.tall "3"
       eq_refl ltac:(discriminate) eq_refl eq_refl eq_refl eq_refl eq_refl eq_refl)
    as (Hload & _ & _ & Hsame).
  split; [exact Hload | exact Hsame].
Defined.

Lemma fetch_failure_500_cache_unchanged_witness :
  let req := mkRequest (Some "u") None in
  let down : Network := fun _ => Rejected "connect ECONNREFUSED" in
  let missing : Network := fun _ =>
    Resolved (mkResponse false 404 "Not Found" None (Resolved [])) in
  ((Demo.handler down 5 req initial_state).1
   = RespJson 500 (ErrorBody "connect ECONNREFUSED")
   /\ imageCache (Demo.handler down 5 req initial_state).2 = ∅)
  /\ ((Demo.handler missing 5 req initial_state).1
      = RespJson 500 (ErrorBody "Failed to fetch image: Not Found (404)")
      /\ imageCache (Demo.handler missing 5 req initial_state).2 = ∅).
Proof.
  split.
  - apply (proj1
      (fetch_failure_500_cache_unchanged Process.SLICE_HEIGHT
         "http://localhost:3001" (fun s => s) Demo.metadata Demo.extract_jpeg
         (fun _ => Rejected "connect ECONNREFUSED") 5 (mkRequest (Some "u") None)
         initial_state "u" eq_refl ltac:(discriminate) eq_refl)
      "connect ECONNREFUSED" eq_refl).
  - apply (proj1 (proj2
      (fetch_failure_500_cache_unchanged Process.SLICE_HEIGHT
         "http://localhost:3001" (fun s => s) Demo.metadata Demo.extract_jpeg
         (fun _ => Resolved (mkResponse false 404 "Not Found" None (Resolved [])))
         5 (mkRequest (Some "u") None)
         initial_state "u" eq_refl ltac:(discriminate) eq_refl))
      (mkResponse false 404 "Not Found" None (Resolved [])) eq_refl eq_refl).
Defined.


Lemma slice_index_bounds_witness :
  let st1 := mkState (imageCache Demo.cached) [LogUsingCached "u"] in
  Demo.handler (Demo.serves None) 5 (mkRequest (Some "u") (Some "3")) Demo.cached
  = (RespJson 404 (ErrorBody "Slice index out of bounds"), st1)
  /\ extract_calls
       (trace (Demo.handler (Demo.serves None) 5 (mkRequest (Some "u") (Some "2"))
                 Demo.cached).2)
     = [(Demo.tall, Num 0, Num 3000, Num 4, Num 200)]
  /\ (Demo.handler (Demo.serves None) 5 (mkRequest (Some "u") (Some "2"))
        Demo.cached).1
     = RespSend [("Content-Type", "image/jpeg");
                 ("Cache-Control", "public, max-age=31536000")]
         [Byte.xff; Byte.xd8; Byte.xff; Byte.xd9].
Proof.
  split; [|split].
  - apply (proj1
      (slice_index_bounds Process.SLICE_HEIGHT
         "http://localhost:3001" (fun s => s) Demo.metadata Demo.extract_jpeg
         (Demo.serves None) 5 (mkRequest (Some "u") (Some "3")) Demo.cached
         (mkState (imageCache Demo.cached) [LogUsingCached "u"])
         "u" "3" Demo.tall 4 3200
         eq_refl ltac:(discriminate) eq_refl eq_refl eq_refl eq_refl eq_refl)
      3 eq_refl).
    vm_compute. discriminate.
  - apply (proj2
      (slice_index_bounds Process.SLICE_HEIGHT
         "http://localhost:3001" (fun s => s) Demo.metadata Demo.extract_jpeg
         (Demo.serves None) 5 (mkRequest (Some "u") (Some "2")) Demo.cached
         (mkState (imageCache Demo.cached) [LogUsingCached "u"])
         "u" "2" Demo.tall 4 3200
         eq_refl ltac:(discriminate) eq_refl eq_refl eq_refl eq_refl eq_refl)
      eq_refl).
  - apply (proj2
      (slice_index_bounds Process.SLICE_HEIGHT
         "http://localhost:3001" (fun s => s) Demo.metadata Demo.extract_jpeg
         (Demo.serves None) 5 (mkRequest (Some "u") (Some "2")) Demo.cached
         (mkState (imageCache Demo.cached) [LogUsingCached "u"])
         "u" "2" Demo.tall 4 3200
         eq_refl ltac:(discriminate) eq_refl eq_refl eq_refl eq_refl eq_refl)
      eq_refl).
    reflexivity.
Defined.

Lemma invalid_index_fails_500_witness :
  (Demo.handler (Demo.serves None) 5 (mkRequest (Some "u") (Some "-1"))
     Demo.cached).1
  <> RespJson 404 (ErrorBody "Slice index out of bounds")
  /\ exists message,
       Demo.extract_jpeg Demo.tall (Num 0) (Num (-1500)) (Num 4) (Num 1500) 90
       = Rejected message
       /\ (Demo.handler (Demo.serves None) 5 (mkRequest (Some "u") (Some "-1"))
             Demo.cached).1
          = RespJson 500 (ErrorBody message).
Proof.
  pose proof
    (invalid_index_fails_500 Process.SLICE_HEIGHT
       "http://localhost:3001" (fun s => s) Demo.metadata Demo.extract_jpeg
       (Demo.serves None) 5 (mkRequest (Some "u") (Some "-1")) Demo.cached
       (mkState (imageCache Demo.cached) [LogUsingCached "u"])
       "u" "-1" Demo.tall 4 3200
       eq_refl ltac:(discriminate) eq_refl eq_refl eq_refl eq_refl eq_refl
       (or_intror (ex_intro _ (-1) (conj eq_refl eq_refl)))
       (demo_extract_refuses_bad_top Demo.tall 4))
    as (_ & _ & _ & Hfail & Hnot404).
  split; [exact Hnot404 | exact Hfail].
Defined.

(** The invalid indices on the demo codec: ["abc"] parses to NaN, ["-1"] to
    a negative index; both requests end in the 500 of the [catch]. *)
Example invalid_index_NaN :
  (Demo.handler (Demo.serves None) 5 (mkRequest (Some "u") (Some "abc"))
     Demo.cached).1
  = RespJson 500 (ErrorBody "Expected integer for top but received NaN").
Proof. reflexivity. Qed.

Example invalid_index_negative :
  (Demo.handler (Demo.serves None) 5 (mkRequest (Some "u") (Some "-1"))
     Demo.cached).1
  = RespJson 500 (ErrorBody "Expected integer for top but received -1500").
Proof. vm_compute. reflexivity. Qed.

(** The last scenario of the specification for the bounds: an image of 1500
    pixels has the single slice 0, and index 1 is out of bounds. *)
Example index_1_of_1500_out_of_bounds :
  (Demo.handler (Demo.serves None) 5 (mkRequest (Some "u") (Some "1"))
     (mkState {[ "u" := mkEntry [Byte.x04; Byte.x0f] 0 ]} [])).1
  = RespJson 404 (ErrorBody "Slice index out of bounds").
Proof. reflexivity. Qed.

Example missing_url_400 :
  (Demo.handler (Demo.serves None) 5 (mkRequest None (Some "1")) initial_state).1
  = RespJson 400 (ErrorBody "Missing url parameter").
Proof. reflexivity. Qed.

(** ** Decimal indices: what the manifest prints, [parseInt] reads back *)

Lemma digit_value_pretty_N_char (d : N) :
  (d < 10)%N -> JS.digit_value (pretty_N_char d) = Some (Z.of_N d).
Proof.
  intros Hd.
  assert (Hcases : (d = 0 \/ d = 1 \/ d = 2 \/ d = 3 \/ d = 4 \/ d = 5
                    \/ d = 6 \/ d = 7 \/ d = 8 \/ d = 9)%N) by lia.
  repeat (destruct Hcases as [-> | Hcases]; [reflexivity|]).
  by subst.
Qed.

Lemma parse_digits_pretty_N_go (x : N) :
  (0 < x)%N ->
  forall s, JS.parse_digits 10 (pretty_N_go x s) None
            = JS.parse_digits 10 s (Some (Z.of_N x)).
Proof.
  induction (N.lt_wf_0 x) as [x _ IH]; intros Hx s.
  rewrite pretty_N_go_step by assumption.
  pose proof (N.div_mod x 10 ltac:(lia)) as Hdm.
  pose proof (N.mod_lt x 10 ltac:(lia)) as Hmod.
  assert (Hstep : forall acc,
            JS.parse_digits 10 (String (pretty_N_char (x `mod` 10)) s) acc
            = JS.parse_digits 10 s
                (Some (default 0 acc * 10 + Z.of_N (x `mod` 10)))).
  { intros acc. cbn [JS.parse_digits].
    rewrite digit_value_pretty_N_char by assumption.
    assert (Hlt : (Z.of_N (x `mod` 10) <? 10) = true) by (apply Z.ltb_lt; lia).
    by rewrite Hlt. }
  destruct (decide (x `div` 10 = 0)%N) as [Hz|Hnz].
  - rewrite Hz, pretty_N_go_0, Hstep. simpl. do 2 f_equal. lia.
  - rewrite IH; [| apply N.div_lt; lia | lia].
    rewrite Hstep. simpl. do 2 f_equal. lia.
Qed.

Lemma pretty_N_go_head (x : N) :
  (0 < x)%N ->
  forall s, exists c t,
    pretty_N_go x s = String c t
    /\ decimal_char c
    /\ (t = s \/ exists c' t', t = String c' t' /\ decimal_char c').
Proof.
  induction (N.lt_wf_0 x) as [x _ IH]; intros Hx s.
  rewrite pretty_N_go_step by assumption.
  pose proof (N.mod_lt x 10 ltac:(lia)) as Hmod.
  destruct (decide (x `div` 10 = 0)%N) as [Hz|Hnz].
  - rewrite Hz, pretty_N_go_0. eexists _, _. split; [reflexivity|].
    split; [by eexists | by left].
  - assert (Hlt : (x `div` 10 < x)%N) by (apply N.div_lt; lia).
    assert (Hpos : (0 < x `div` 10)%N) by (by apply N.neq_0_lt_0).
    destruct (IH _ Hlt Hpos (String (pretty_N_char (x `mod` 10)) s))
      as (c & t & Heq & Hc & Ht).
    exists c, t. split; [exact Heq|]. split; [exact Hc|]. right.
    destruct Ht as [-> | Ht]; [|exact Ht].
    eexists _, _. split; [reflexivity | by eexists].
Qed.

Lemma decimal_char_cases (c : ascii) :
  decimal_char c ->
  c = "0"%char \/ c = "1"%char \/ c = "2"%char \/ c = "3"%char \/ c = "4"%char
  \/ c = "5"%char \/ c = "6"%char \/ c = "7"%char \/ c = "8"%char \/ c = "9"%char.
Proof.
  intros (d & Hd & ->).
  assert (Hcases : (d = 0 \/ d = 1 \/ d = 2 \/ d = 3 \/ d = 4 \/ d = 5
                    \/ d = 6 \/ d = 7 \/ d = 8 \/ d = 9)%N) by lia.
  repeat (destruct Hcases as [-> | Hcases]; [simpl; tauto|]).
  subst; simpl; tauto.
Qed.

(** On a string that opens with a decimal digit, followed by the end or by
    another digit, [parseInt] is the value of its digits: no white space
    and no sign to skip, and a leading 0 is not the prefix [0x]. *)
Lemma parseInt_decimal (c : ascii) (t : string) :
  decimal_char c ->
  (t = EmptyString \/ exists c' t', t = String c' t' /\ decimal_char c') ->
  parseInt (String c t)
  = match JS.parse_digits 10 (String c t) None with
    | Some n => Num (1 * n)
    | None => NaN
    end.
Proof.
  intros Hc Ht. apply decimal_char_cases in Hc.
  destruct Ht as [-> | (c' & t' & -> & Hc')].
  - repeat (destruct Hc as [-> | Hc]; [reflexivity|]). by subst.
  - apply decimal_char_cases in Hc'.
    repeat (destruct Hc as [-> | Hc];
            [repeat (destruct Hc' as [-> | Hc']; [reflexivity|]); by subst|]).
    subst c. repeat (destruct Hc' as [-> | Hc']; [reflexivity|]). by subst.
Qed.

(** The index a manifest prints is the index [parseInt] reads. *)
Lemma parseInt_pretty (z : Z) : 0 <= z -> parseInt (pretty z) = Num z.
Proof.
  intros Hz. destruct z as [|p|p]; [reflexivity| |lia].
  change (pretty (Z.pos p)) with (pretty_N_go (N.pos p) EmptyString).
  destruct (pretty_N_go_head (N.pos p) ltac:(lia) EmptyString)
    as (c & t & Heq & Hc & Ht).
  rewrite Heq, parseInt_decimal by assumption.
  rewrite <- Heq, parse_digits_pretty_N_go by lia.
  simpl. reflexivity.
Qed.

(** ** The local address and the base URL *)

Lemma first_external_find (ifaces : list Env.NetworkInterfaceInfo) :
  Env.first_external ifaces
  = Env.address <$> List.find Env.external_IPv4 ifaces.
Proof.
  induction ifaces as [|iface rest IH]; simpl; [reflexivity|].
  by destruct (Env.external_IPv4 iface).
Qed.

Lemma find_app_first {A : Type} (f : A -> bool) (l1 l2 : list A) :
  List.find f (l1 ++ l2)
  = match List.find f l1 with
    | Some x => Some x
    | None => List.find f l2
    end.
Proof.
  induction l1 as [|x l1 IH]; simpl; [reflexivity|]. by destruct (f x).
Qed.

(** [getLocalIP] returns the address of the first interface entry, in the
    order interfaces and their addresses are listed, that is IPv4 and not
    internal, and ['localhost'] when there is none; so what it returns is
    ['localhost'] or the address of an external IPv4 entry, never the
    address of a loopback or of an IPv6 entry that is not also the address
    of such an entry. *)
Theorem getLocalIP_first_external_IPv4
    (interfaces : list (string * list Env.NetworkInterfaceInfo)) :
  Env.getLocalIP interfaces
  = match List.find Env.external_IPv4 (concat (map snd interfaces)) with
    | Some iface => Env.address iface
    | None => "localhost"
    end
  /\ (Env.getLocalIP interfaces = "localhost"
      \/ exists name ifaces iface,
           In (name, ifaces) interfaces /\ In iface ifaces
           /\ Env.family iface = "IPv4" /\ Env.internal iface = false
           /\ Env.address iface = Env.getLocalIP interfaces).
Proof.
  split.
  - induction interfaces as [|[name ifaces] rest IH]; simpl; [reflexivity|].
    rewrite find_app_first, first_external_find.
    by destruct (List.find Env.external_IPv4 ifaces).
  - induction interfaces as [|[name ifaces] rest IH]; simpl; [by left|].
    rewrite first_external_find.
    destruct (List.find Env.external_IPv4 ifaces) as [iface|] eqn:Hfind; simpl.
    + right. apply find_some in Hfind as [Hin Hext].
      unfold Env.external_IPv4 in Hext.
      apply andb_prop in Hext as [Hfam Hint].
      apply String.eqb_eq in Hfam. apply negb_true_iff in Hint.
      exists name, ifaces, iface. split; [by left|]. by repeat split.
    + destruct IH as [Hlocal | (name' & ifaces' & iface & Hin & Hin' & Hrest)];
        [by left|].
      right. exists name', ifaces', iface. split; [by right|]. by split.
Qed.

(** A machine with a loopback, an IPv6 address and then an IPv4 address on
    the second interface: the IPv4 address is the answer. *)
Example getLocalIP_second_interface :
  Env.getLocalIP
    [("lo", [Env.mkInfo "IPv4" true "127.0.0.1"; Env.mkInfo "IPv6" true "::1"]);
     ("eth0", [Env.mkInfo "IPv6" false "fe80::1";
               Env.mkInfo "IPv4" false "192.168.1.20"])]
  = "192.168.1.20".
Proof. reflexivity. Qed.

Lemma append_slash_not_empty (t : string) : t +:+ "/" <> EmptyString.
Proof. by destruct t. Qed.

Lemma strip_trailing_slash_keeps (s : string) :
  Env.strip_trailing_slash (s +:+ "/") = s.
Proof.
  induction s as [|c s IH]; [reflexivity|].
  change (String c s +:+ "/") with (String c (s +:+ "/")).
  destruct s as [|c' s']; [reflexivity|].
  change (String c' s' +:+ "/") with (String c' (s' +:+ "/")) in *.
  cbn [Env.strip_trailing_slash]. cbn [Env.strip_trailing_slash] in IH.
  destruct (s' +:+ "/") eqn:Hs'; [by destruct (append_slash_not_empty s')|].
  by rewrite IH.
Qed.

Lemma strip_trailing_slash_cases (s : string) :
  (Env.strip_trailing_slash s = s /\ forall t, s <> t +:+ "/")
  \/ s = Env.strip_trailing_slash s +:+ "/".
Proof.
  induction s as [|c s IH].
  - left. split; [reflexivity|]. intros t Ht. symmetry in Ht.
    by apply append_slash_not_empty in Ht.
  - destruct s as [|c' s'].
    + simpl. destruct (Ascii.eqb c "/") eqn:Hc.
      { right. apply Ascii.eqb_eq in Hc. by subst. }
      { left. split; [reflexivity|]. intros [|c0 [|c1 t]] Ht; simpl in Ht.
        - inversion Ht; subst. by rewrite Ascii.eqb_refl in Hc.
        - discriminate.
        - discriminate. }
    + change (Env.strip_trailing_slash (String c (String c' s')))
        with (String c (Env.strip_trailing_slash (String c' s'))).
      destruct IH as [[Hsame Hno] | Hends].
      { left. split; [by rewrite Hsame|].
        intros [|c0 t] Ht; simpl in Ht; [discriminate|].
        inversion Ht; subst. by apply (Hno t). }
      { right.
        change (String c (String c' s')
                = String c (Env.strip_trailing_slash (String c' s') +:+ "/")).
        by rewrite <- Hends. }
Qed.

Lemma strip_trailing_slash_same (s : string) :
  (forall t, s <> t +:+ "/") -> Env.strip_trailing_slash s = s.
Proof.
  intros Hno. destruct (strip_trailing_slash_cases s) as [[Hsame _] | Hends];
    [assumption|]. by destruct (Hno _ Hends).
Qed.

(** The replacement removes one final slash and nothing else: a string
    that ends with a slash loses exactly that character, and a string that
    does not end with one is returned as it is. *)
Theorem strip_trailing_slash_one (s : string) :
  Env.strip_trailing_slash (s +:+ "/") = s
  /\ ((Env.strip_trailing_slash s = s /\ forall t, s <> t +:+ "/")
      \/ s = Env.strip_trailing_slash s +:+ "/").
Proof.
  split; [apply strip_trailing_slash_keeps | apply strip_trailing_slash_cases].
Qed.

Lemma baseUrl_external (external LOCAL_IP port : string) :
  external <> EmptyString ->
  Env.baseUrl (Some external) LOCAL_IP port = Env.strip_trailing_slash external.
Proof.
  intros Hne. unfold Env.baseUrl.
  destruct (String.eqb external EmptyString) eqn:Heq; [|reflexivity].
  by apply String.eqb_eq in Heq.
Qed.

Lemma slices_loop_url (SLICE_HEIGHT : Z) (baseUrl : string)
    (encodeURIComponent : string -> string) (n : nat) :
  forall i url width height (k : nat) s,
  slices_loop SLICE_HEIGHT baseUrl encodeURIComponent n i url width height !! k
  = Some s ->
  slice_url s
  = baseUrl +:+ "/slice?url=" +:+ encodeURIComponent url
    +:+ "&index=" +:+ pretty (i + Z.of_nat k).
Proof.
  induction n as [|n IH]; simpl; intros i url width height k s H.
  - discriminate.
  - destruct k as [|k]; simpl in H.
    + inversion H; subst; simpl. by rewrite Z.add_0_r.
    + apply IH in H. by replace (i + Z.of_nat (S k)) with (i + 1 + Z.of_nat k) by lia.
Qed.

(** The links of the manifest.  Let [b] be the base of the deployment: the
    external URL without its final slash when [RENDER_EXTERNAL_URL] is set
    (with or without that slash), [http://LOCAL_IP:PORT] when it is unset
    or empty.  Then the slice at position [k] of the manifest links to
    [b/slice?url=<encoded url>&index=k], with one slash after [b]. *)
Theorem manifest_links
    (SLICE_HEIGHT : Z) (encodeURIComponent : string -> string)
    (RENDER_EXTERNAL_URL : option string) (LOCAL_IP port : string)
    (url : string) (width height : Z) (k : nat) (s : SliceInfo) (b : string) :
  slices (manifest SLICE_HEIGHT (Env.baseUrl RENDER_EXTERNAL_URL LOCAL_IP port)
            encodeURIComponent url width height) !! k = Some s ->
  RENDER_EXTERNAL_URL = Some (b +:+ "/")
  \/ (RENDER_EXTERNAL_URL = Some b /\ b <> EmptyString /\ forall t, b <> t +:+ "/")
  \/ ((RENDER_EXTERNAL_URL = None \/ RENDER_EXTERNAL_URL = Some EmptyString)
      /\ b = "http://" +:+ LOCAL_IP +:+ ":" +:+ port) ->
  slice_url s
  = b +:+ "/slice?url=" +:+ encodeURIComponent url
    +:+ "&index=" +:+ pretty (Z.of_nat k).
Proof.
  intros Hk Hbase. cbn [manifest slices] in Hk.
  apply slices_loop_url in Hk. rewrite Z.add_0_l in Hk. rewrite Hk.
  do 2 f_equal.
  destruct Hbase as [-> | [(-> & Hne & Hno) | ([-> | ->] & ->)]];
    [| | reflexivity | reflexivity].
  - rewrite baseUrl_external by apply append_slash_not_empty.
    apply strip_trailing_slash_keeps.
  - rewrite baseUrl_external by assumption.
    by apply strip_trailing_slash_same.
Qed.

Lemma manifest_links_witness :
  slice_url
    (mkSlice 2 "https://manga.onrender.com/slice?url=u&index=2" 3000 200 4)
  = "https://manga.onrender.com" +:+ "/slice?url=" +:+ "u"
    +:+ "&index=" +:+ pretty (Z.of_nat 2).
Proof.
  apply (manifest_links Process.SLICE_HEIGHT (fun s => s)
           (Some "https://manga.onrender.com/") "192.168.1.20" "3001"
           "u" 4 3200 2 _ "https://manga.onrender.com").
  - reflexivity.
  - left. reflexivity.
Defined.

(** The heights of the slices of the manifest: every slice but the last is
    [SLICE_HEIGHT] high; the last one takes what is left,
    [height - (numSlices - 1) * SLICE_HEIGHT], and is a full slice exactly
    when [SLICE_HEIGHT] divides the height of the image. *)
Theorem manifest_slice_heights
    (SLICE_HEIGHT : Z) (baseUrl : string) (encodeURIComponent : string -> string)
    (url : string) (width height : Z) (k : nat) (s : SliceInfo) :
  0 < height -> 0 < SLICE_HEIGHT ->
  let m := manifest SLICE_HEIGHT baseUrl encodeURIComponent url width height in
  slices m !! k = Some s ->
  (Z.of_nat k < numSlices m - 1 -> slice_height s = SLICE_HEIGHT)
  /\ (Z.of_nat k = numSlices m - 1 ->
      slice_height s = height - (numSlices m - 1) * SLICE_HEIGHT
      /\ (slice_height s = SLICE_HEIGHT <-> (SLICE_HEIGHT | height)))
  /\ Z.of_nat k <= numSlices m - 1.
Proof.
  intros Hh Hs m Hk. subst m. cbn [manifest slices numSlices] in *.
  pose proof (ceil_div_bounds height SLICE_HEIGHT Hs) as Hn.
  pose proof (lookup_lt_Some _ _ _ Hk) as Hlt.
  rewrite slices_loop_length in Hlt.
  apply slices_loop_lookup in Hk. destruct Hk as (_ & _ & Hb & _).
  rewrite Z.add_0_l in Hb. rewrite Hb.
  set (n := JS.ceil_div height SLICE_HEIGHT) in *. clearbody n.
  assert (Hkn : Z.of_nat k <= n - 1) by lia.
  split; [|split; [|exact Hkn]].
  - intros Hmid. apply Z.min_l. nia.
  - intros Hlast. rewrite Hlast.
    assert (Hmin : Z.min SLICE_HEIGHT (height - (n - 1) * SLICE_HEIGHT)
                   = height - (n - 1) * SLICE_HEIGHT) by (apply Z.min_r; lia).
    rewrite Hmin. split; [reflexivity|]. split.
    + intros Hfull. exists n. lia.
    + intros [q Hq]. subst height.
      assert (Hlo : n - 1 < q) by nia.
      assert (Hhi : q <= n) by nia.
      replace q with n by lia. lia.
Qed.

Lemma manifest_slice_heights_witness :
  slice_height (mkSlice 2 "http://localhost:3001/slice?url=u&index=2" 3000 200 4)
  = 3200 - (3 - 1) * 1500.
Proof.
  apply (proj2 (manifest_slice_heights Process.SLICE_HEIGHT "http://localhost:3001" (fun s => s)
                  "u" 4 3200 2 _ eq_refl eq_refl eq_refl)).
  reflexivity.
Defined.

(** ** Requests, one by one *)

(** What a request does to the cache while it loads its image: nothing on
    a hit and on a failed download, one insertion under the key on a
    download that went through. *)
Lemma load_image_cache (net : Network) (now : Z) (url : string) (st : State) :
  imageCache (load_image net now url st).2
  = match imageCache st !! url, net url with
    | None, Resolved response =>
        match ok response, body response with
        | true, Resolved buf => <[url := mkEntry buf now]> (imageCache st)
        | _, _ => imageCache st
        end
    | _, _ => imageCache st
    end.
Proof.
  destruct (imageCache st !! url) as [entry|] eqn:Hk.
  { by rewrite (load_image_hit _ _ _ _ entry Hk). }
  destruct (net url) as [response|message] eqn:Hnet.
  - destruct (ok response) eqn:Hok.
    + destruct (body response) as [buf|message] eqn:Hbody.
      * by rewrite (load_image_downloaded _ _ _ _ response buf).
      * by rewrite (load_image_body_rejected _ _ _ _ response message).
    + by rewrite (load_image_not_ok _ _ _ _ response).
  - by rewrite (load_image_fetch_rejected _ _ _ _ message).
Qed.

Lemma state_ext (a b : State) :
  imageCache a = imageCache b -> trace a = trace b -> a = b.
Proof. destruct a, b; simpl; by intros -> ->. Qed.

(** Two runs of the janitor are one run at the later of the two times; in
    particular a second run at the same time changes nothing, and the
    order of two runs does not matter. *)
Theorem sweep_sweep (CACHE_TTL t1 t2 : Z) (st : State) :
  sweep CACHE_TTL t2 (sweep CACHE_TTL t1 st) = sweep CACHE_TTL (Z.max t1 t2) st
  /\ sweep CACHE_TTL t1 (sweep CACHE_TTL t1 st) = sweep CACHE_TTL t1 st
  /\ sweep CACHE_TTL t2 (sweep CACHE_TTL t1 st)
     = sweep CACHE_TTL t1 (sweep CACHE_TTL t2 st).
Proof.
  assert (Hmax : forall a b,
            sweep CACHE_TTL b (sweep CACHE_TTL a st)
            = sweep CACHE_TTL (Z.max a b) st).
  { intros a b. apply state_ext; [|reflexivity].
    apply map_eq; intros k. rewrite !sweep_lookup.
    destruct (imageCache st !! k) as [e|]; [|reflexivity].
    destruct (a - timestamp e >? CACHE_TTL) eqn:Ha;
      destruct (b - timestamp e >? CACHE_TTL) eqn:Hb;
      destruct (Z.max a b - timestamp e >? CACHE_TTL) eqn:Hm;
      try reflexivity; lia. }
  split; [apply Hmax|]. split.
  - rewrite Hmax. by rewrite Z.max_id.
  - rewrite !Hmax. by rewrite Z.max_comm.
Qed.

Section Requests.

Variables (SLICE_HEIGHT CACHE_TTL : Z).
Variables (baseUrl : string) (encodeURIComponent : string -> string).
Variable sharp_metadata : Buffer -> outcome (Z * Z).
Variable sharp_extract_jpeg :
  Buffer -> number -> number -> number -> number -> Z -> outcome Buffer.

Abbreviation respond_with :=
  (respond SLICE_HEIGHT baseUrl encodeURIComponent sharp_metadata sharp_extract_jpeg).
Abbreviation handler :=
  (slice_handler SLICE_HEIGHT baseUrl encodeURIComponent sharp_metadata
     sharp_extract_jpeg).
Abbreviation jpeg_headers :=
  [("Content-Type", "image/jpeg"); ("Cache-Control", "public, max-age=31536000")].

Lemma handler_no_url (net : Network) (now : Z) (req : Request) (st : State) :
  no_url req ->
  handler net now req st = (RespJson 400 (ErrorBody "Missing url parameter"), st).
Proof.
  intros [Hq | Hq]; unfold slice_handler, slice_try; by rewrite Hq.
Qed.

Lemma url_cases (req : Request) :
  no_url req \/ exists url, query_url req = Some url /\ url <> EmptyString.
Proof.
  unfold no_url. destruct (query_url req) as [url|]; [|by left; left].
  destruct (decide (url = EmptyString)) as [->|Hne]; [by left; right|].
  right. by exists url.
Qed.

(** What the answer computed from an image can be, and what it does to the
    list of extractions: a throw of the codec, the manifest when no index
    is given, and with an index the 404 or the bytes of one extraction. *)
Lemma respond_kinds (url : string) (index : option string) (buf : Buffer)
    (st : State) :
  let r := respond_with url index buf st in
  match index with
  | None =>
      extract_calls (trace r.2) = extract_calls (trace st)
      /\ ((exists message, r.1 = Rejected message)
          \/ exists width height,
               sharp_metadata buf = Resolved (width, height)
               /\ r.1 = Resolved (RespJson 200
                                    (ManifestBody
                                       (manifest SLICE_HEIGHT baseUrl
                                          encodeURIComponent url width height))))
  | Some _ =>
      (exists message, r.1 = Rejected message)
      \/ (r.1 = Resolved (RespJson 404 (ErrorBody "Slice index out of bounds"))
          /\ r.2 = st)
      \/ exists bytes, r.1 = Resolved (RespSend jpeg_headers bytes)
  end.
Proof.
  unfold respond, bind, await.
  destruct (sharp_metadata buf) as [[width height]|message]; simpl.
  - destruct index as [index|]; simpl.
    + unfold slice_branch, bind, await, emit, ret.
      destruct (JS.ge _ _); [right; left; by split|]. simpl.
      destruct (sharp_extract_jpeg _ _ _ _ _ _); simpl;
        [right; right; by eexists | left; by eexists].
    + split; [reflexivity|]. right. by eexists _, _.
  - destruct index; [left; by eexists|].
    split; [reflexivity|]. left. by eexists.
Qed.

(** The 400 is the answer to a query without [url], and to no other: a
    missing or empty [url] is answered 400 whatever the index is, with the
    cache and the trace left as they were, and every request that does
    name a [url] gets another status. *)
Theorem missing_url_iff_400
    (net : Network) (now : Z) (req : Request) (st : State) :
  (no_url req ->
   handler net now req st = (RespJson 400 (ErrorBody "Missing url parameter"), st))
  /\ ((exists b, (handler net now req st).1 = RespJson 400 b) <-> no_url req).
Proof.
  split; [apply handler_no_url|]. split.
  - intros [b Hb]. destruct (url_cases req) as [Hno | (url & Hq & Hne)];
      [assumption | exfalso].
    rewrite (handler_via_load SLICE_HEIGHT baseUrl encodeURIComponent
               sharp_metadata sharp_extract_jpeg net now req st url Hq Hne),
      catch_answer in Hb.
    destruct (load_image net now url st) as [[buf|message] st1];
      [|discriminate].
    pose proof (respond_kinds url (query_index req) buf st1) as Hkinds.
    simpl in Hkinds.
    destruct (query_index req);
      [destruct Hkinds as [[m Hr] | [[Hr _] | [bytes Hr]]]
      |destruct Hkinds as [_ [[m Hr] | (w & h & _ & Hr)]]];
      rewrite Hr in Hb; discriminate.
  - intros Hno. rewrite handler_no_url by assumption. by eexists.
Qed.

(** The kind of the response follows the query.  Without an [index] the
    handler asks for no extraction and answers 400, 500 or the manifest of
    the image, never 404 and never bytes.  With an [index] it answers 400,
    500, 404 or the bytes of a JPEG with the two headers, never a
    manifest. *)
Theorem response_follows_query
    (net : Network) (now : Z) (req : Request) (st : State) :
  let res := (handler net now req st).1 in
  (query_index req = None ->
   extract_calls (trace (handler net now req st).2) = extract_calls (trace st)
   /\ (res = RespJson 400 (ErrorBody "Missing url parameter")
       \/ (exists message, res = RespJson 500 (ErrorBody message))
       \/ exists url buf width height,
            query_url req = Some url
            /\ sharp_metadata buf = Resolved (width, height)
            /\ res = RespJson 200
                       (ManifestBody
                          (manifest SLICE_HEIGHT baseUrl encodeURIComponent
                             url width height))))
  /\ (forall index, query_index req = Some index ->
        res = RespJson 400 (ErrorBody "Missing url parameter")
        \/ (exists message, res = RespJson 500 (ErrorBody message))
        \/ res = RespJson 404 (ErrorBody "Slice index out of bounds")
        \/ exists bytes, res = RespSend jpeg_headers bytes).
Proof.
  intros res; subst res.
  destruct (url_cases req) as [Hno | (url & Hq & Hne)].
  { rewrite handler_no_url by assumption. split; [by split; [|left]|].
    intros; by left. }
  rewrite (handler_via_load SLICE_HEIGHT baseUrl encodeURIComponent
             sharp_metadata sharp_extract_jpeg net now req st url Hq Hne).
  destruct (load_image_state net now url st) as (cache' & evs & Hst & Hnone & _).
  destruct (load_image net now url st) as [[buf|message] st1]; simpl in Hst.
  - pose proof (respond_kinds url (query_index req) buf st1) as Hkinds.
    simpl in Hkinds.
    destruct (catch_state (respond_with url (query_index req) buf st1))
      as (evs2 & Hst2 & Hnone2).
    rewrite catch_answer. split.
    + intros Hidx. rewrite Hidx in *. destruct Hkinds as [Hcalls Hres].
      split.
      * rewrite Hst2. simpl. rewrite extract_calls_app, Hnone2, app_nil_r.
        rewrite Hcalls, Hst. simpl.
        by rewrite extract_calls_app, Hnone, app_nil_r.
      * destruct Hres as [[m Hr] | (w & h & Hmeta & Hr)]; rewrite Hr; simpl.
        { right; left. by eexists. }
        { right; right. by exists url, buf, w, h. }
    + intros index Hidx. rewrite Hidx in *.
      destruct Hkinds as [[m Hr] | [[Hr _] | [bytes Hr]]]; rewrite Hr; simpl.
      * right; left. by eexists.
      * right; right; by left.
      * right; right; right. by eexists.
  - split.
    + intros _. split.
      * simpl. rewrite extract_calls_app, Hst. simpl.
        by rewrite extract_calls_app, Hnone, !app_nil_r.
      * right; left. by eexists.
    + intros index _. right; left. by eexists.
Qed.

End Requests.

Lemma missing_url_iff_400_witness :
  Demo.handler (Demo.serves None) 5 (mkRequest (Some EmptyString) (Some "1"))
    Demo.cached
  = (RespJson 400 (ErrorBody "Missing url parameter"), Demo.cached).
Proof.
  apply (proj1 (missing_url_iff_400 Process.SLICE_HEIGHT "http://localhost:3001"
                  (fun s => s) Demo.metadata Demo.extract_jpeg
                  (Demo.serves None) 5 (mkRequest (Some EmptyString) (Some "1"))
                  Demo.cached)).
  right. reflexivity.
Defined.

Lemma response_follows_query_witness :
  extract_calls
    (trace (Demo.handler (Demo.serves None) 5 (mkRequest (Some "u") None)
              Demo.cached).2)
  = [].
Proof.
  apply (proj1 (response_follows_query Process.SLICE_HEIGHT "http://localhost:3001"
                  (fun s => s) Demo.metadata Demo.extract_jpeg
                  (Demo.serves None) 5 (mkRequest (Some "u") None) Demo.cached)).
  reflexivity.
Defined.

Section Downloads.

Variables (SLICE_HEIGHT CACHE_TTL : Z).
Variables (baseUrl : string) (encodeURIComponent : string -> string).
Variable sharp_metadata : Buffer -> outcome (Z * Z).
Variable sharp_extract_jpeg :
  Buffer -> number -> number -> number -> number -> Z -> outcome Buffer.

Abbreviation respond_with :=
  (respond SLICE_HEIGHT baseUrl encodeURIComponent sharp_metadata sharp_extract_jpeg).
Abbreviation handler :=
  (slice_handler SLICE_HEIGHT baseUrl encodeURIComponent sharp_metadata
     sharp_extract_jpeg).
Abbreviation frame_of :=
  (handler_frame SLICE_HEIGHT baseUrl encodeURIComponent sharp_metadata
     sharp_extract_jpeg).
Abbreviation served_of :=
  (cached_entry_served SLICE_HEIGHT baseUrl encodeURIComponent sharp_metadata
     sharp_extract_jpeg).
Abbreviation loaded_of :=
  (handler_loaded SLICE_HEIGHT baseUrl encodeURIComponent sharp_metadata
     sharp_extract_jpeg).
Abbreviation independent_of :=
  (respond_frame SLICE_HEIGHT baseUrl encodeURIComponent sharp_metadata
     sharp_extract_jpeg).

(** A request calls [fetch] at most once, and only for its own [url] when
    the cache has no entry under it: the list of fetched URLs grows by that
    one URL then, and not at all for a cached key or a query without
    [url]. *)
Theorem request_fetches_at_most_once
    (net : Network) (now : Z) (req : Request) (st : State) :
  fetch_calls (trace (handler net now req st).2)
  = fetch_calls (trace st)
    ++ match query_url req with
       | Some url =>
           if String.eqb url EmptyString then []
           else match imageCache st !! url with
                | Some _ => []
                | None => [url]
                end
       | None => []
       end.
Proof.
  destruct (url_cases req) as [Hno | (url & Hq & Hne)].
  { rewrite (handler_no_url SLICE_HEIGHT baseUrl encodeURIComponent
               sharp_metadata sharp_extract_jpeg) by assumption.
    destruct Hno as [-> | ->]; simpl; by rewrite app_nil_r. }
  destruct (frame_of net now req st url Hq Hne) as (_ & Hf).
  rewrite Hf, Hq.
  replace (String.eqb url EmptyString) with false
    by (symmetry; by apply String.eqb_neq).
  destruct (imageCache st !! url) as [entry|] eqn:Hurl.
  - rewrite (load_image_hit _ _ _ _ entry Hurl). simpl.
    by rewrite fetch_calls_app.
  - by apply load_image_miss_fetches.
Qed.

Lemma respond_metadata_rejected (url : string) (index : option string)
    (buf : Buffer) (message : string) (st : State) :
  sharp_metadata buf = Rejected message ->
  respond_with url index buf st = (Rejected message, st).
Proof. intros Hmeta. unfold respond, bind, await. by rewrite Hmeta. Qed.

(** The download is saved before the image is decoded.  When the bytes
    received are not an image the codec can read, the request fails with
    the codec's message, and the bytes stay in the cache under the key:
    every later request for the key that finds the entry fails with the
    same message, without a new call to [fetch]. *)
Theorem undecodable_download_stays_cached
    (net : Network) (now : Z) (req : Request) (st : State)
    (url : string) (response : Response) (buf : Buffer) (message : string) :
  query_url req = Some url -> url <> EmptyString ->
  imageCache st !! url = None ->
  net url = Resolved response -> ok response = true ->
  body response = Resolved buf ->
  sharp_metadata buf = Rejected message ->
  let st1 := (handler net now req st).2 in
  (handler net now req st).1 = RespJson 500 (ErrorBody message)
  /\ imageCache st1 !! url = Some (mkEntry buf now)
  /\ forall net' now' req' st2,
       query_url req' = Some url ->
       imageCache st2 !! url = Some (mkEntry buf now) ->
       (handler net' now' req' st2).1 = RespJson 500 (ErrorBody message)
       /\ fetch_calls (trace (handler net' now' req' st2).2)
          = fetch_calls (trace st2).
Proof.
  intros Hq Hne Hmiss Hnet Hok Hbody Hmeta st1.
  pose proof (load_image_downloaded net now url st response buf
                Hmiss Hnet Hok Hbody) as Hload.
  split; [|split].
  - rewrite (loaded_of net now req st _ url buf Hq Hne Hload).
    by rewrite (respond_metadata_rejected _ _ _ message).
  - subst st1. destruct (frame_of net now req st url Hq Hne) as (Hc & _).
    rewrite Hc, Hload. simpl. apply lookup_insert_eq.
  - intros net' now' req' st2 Hq' Hhit.
    destruct (served_of net' now' req' st2 url _ Hq' Hne Hhit) as (Hh & Hf & _).
    split; [|exact Hf]. rewrite Hh. simpl.
    by rewrite (respond_metadata_rejected _ _ _ message).
Qed.


(** The headers of the download have no say in what is served or saved:
    two downloads of the same bytes, whatever their [content-length],
    status and status text, give the same response and the same cache. *)
Theorem download_headers_never_matter
    (net1 net2 : Network) (now : Z) (req : Request) (st : State)
    (url : string) (response1 response2 : Response) (buf : Buffer) :
  query_url req = Some url -> url <> EmptyString ->
  imageCache st !! url = None ->
  net1 url = Resolved response1 -> ok response1 = true ->
  body response1 = Resolved buf ->
  net2 url = Resolved response2 -> ok response2 = true ->
  body response2 = Resolved buf ->
  (handler net1 now req st).1 = (handler net2 now req st).1
  /\ imageCache (handler net1 now req st).2 = imageCache (handler net2 now req st).2.
Proof.
  intros Hq Hne Hmiss Hnet1 Hok1 Hbody1 Hnet2 Hok2 Hbody2.
  pose proof (load_image_downloaded net1 now url st response1 buf
                Hmiss Hnet1 Hok1 Hbody1) as Hload1.
  pose proof (load_image_downloaded net2 now url st response2 buf
                Hmiss Hnet2 Hok2 Hbody2) as Hload2.
  split.
  - rewrite (loaded_of net1 now req st _ url buf Hq Hne Hload1).
    rewrite (loaded_of net2 now req st _ url buf Hq Hne Hload2).
    rewrite !catch_answer. f_equal.
    apply (independent_of url (query_index req) buf).
  - destruct (frame_of net1 now req st url Hq Hne) as (Hc1 & _).
    destruct (frame_of net2 now req st url Hq Hne) as (Hc2 & _).
    by rewrite Hc1, Hc2, Hload1, Hload2.
Qed.

(** Once the janitor has removed a stale entry, the old bytes are gone: the
    next request for the key that downloads the image answers from the new
    bytes, and the cache holds them under the key with the time of that
    request. *)
Theorem refetch_after_sweep_replaces_entry
    (net : Network) (now t : Z) (req : Request) (st : State)
    (url : string) (entry : CacheEntry) (response : Response) (buf : Buffer) :
  query_url req = Some url -> url <> EmptyString ->
  imageCache st !! url = Some entry ->
  t - timestamp entry > CACHE_TTL ->
  net url = Resolved response -> ok response = true ->
  body response = Resolved buf ->
  let swept := sweep CACHE_TTL t st in
  imageCache swept !! url = None
  /\ imageCache (handler net now req swept).2 !! url = Some (mkEntry buf now)
  /\ (handler net now req swept).1
     = answer (respond_with url (query_index req) buf swept).1.
Proof.
  intros Hq Hne Hhit Hexp Hnet Hok Hbody swept.
  assert (Hmiss : imageCache swept !! url = None).
  { subst swept. rewrite sweep_lookup, Hhit.
    by replace (t - timestamp entry >? CACHE_TTL) with true by (symmetry; lia). }
  pose proof (load_image_downloaded net now url swept response buf
                Hmiss Hnet Hok Hbody) as Hload.
  split; [exact Hmiss|]. split.
  - destruct (frame_of net now req swept url Hq Hne) as (Hc & _).
    rewrite Hc, Hload. simpl. apply lookup_insert_eq.
  - rewrite (loaded_of net now req swept _ url buf Hq Hne Hload).
    rewrite catch_answer. f_equal.
    apply (independent_of url (query_index req) buf).
Qed.

End Downloads.

(** ** The indices of the manifest and the bounds check *)

(** The bounds check of the slice branch counts slices as the manifest
    does: [index * SLICE_HEIGHT >= height] exactly from [numSlices] on. *)
Lemma out_of_bounds_iff (SLICE_HEIGHT height i : Z) :
  0 < height -> 0 < SLICE_HEIGHT ->
  i * SLICE_HEIGHT >= height <-> JS.ceil_div height SLICE_HEIGHT <= i.
Proof.
  intros Hh Hs. pose proof (ceil_div_bounds height SLICE_HEIGHT Hs) as Hn.
  set (n := JS.ceil_div height SLICE_HEIGHT) in *. clearbody n.
  split; intros Hi; nia.
Qed.

Section SliceRange.

Variables (SLICE_HEIGHT : Z).
Variables (baseUrl : string) (encodeURIComponent : string -> string).
Variable sharp_metadata : Buffer -> outcome (Z * Z).
Variable sharp_extract_jpeg :
  Buffer -> number -> number -> number -> number -> Z -> outcome Buffer.

Abbreviation handler :=
  (slice_handler SLICE_HEIGHT baseUrl encodeURIComponent sharp_metadata
     sharp_extract_jpeg).

Variables (net : Network) (now : Z) (req : Request) (st st1 : State).
Variables (url index : string) (buf : Buffer) (width height : Z).

Hypothesis Hurl : query_url req = Some url.
Hypothesis Hurl_ne : url <> EmptyString.
Hypothesis Hindex : query_index req = Some index.
Hypothesis Hload : load_image net now url st = (Resolved buf, st1).
Hypothesis Hmeta : sharp_metadata buf = Resolved (width, height).
Hypothesis Hheight : 0 < height.
Hypothesis Hslice : 0 < SLICE_HEIGHT.

(** An index below [numSlices]: the bounds check lets it through, and the
    codec is asked for the band of that index. *)
Lemma index_below_count (i : Z) :
  parseInt index = Num i -> i < JS.ceil_div height SLICE_HEIGHT ->
  let y := i * SLICE_HEIGHT in
  let band := Z.min SLICE_HEIGHT (height - y) in
  extract_calls (trace (handler net now req st).2)
  = extract_calls (trace st) ++ [(buf, Num 0, Num y, Num width, Num band)]
  /\ (handler net now req st).1
     = match sharp_extract_jpeg buf (Num 0) (Num y) (Num width) (Num band) 90 with
       | Resolved bytes =>
           RespSend [("Content-Type", "image/jpeg");
                     ("Cache-Control", "public, max-age=31536000")] bytes
       | Rejected message => RespJson 500 (ErrorBody message)
       end.
Proof.
  intros Hparse Hi y band.
  apply (slice_branch_extracts SLICE_HEIGHT baseUrl encodeURIComponent
           sharp_metadata sharp_extract_jpeg net now req st st1 url index buf
           width height Hurl Hurl_ne Hindex Hload Hmeta (Num y) (Num band)).
  - by rewrite Hparse.
  - reflexivity.
  - cbn [JS.ge]. rewrite Z.geb_leb. apply Z.leb_gt.
    pose proof (out_of_bounds_iff SLICE_HEIGHT height i Hheight Hslice).
    subst y. lia.
Qed.

(** For an index that parses to an integer [i], the answer is the 404
    exactly when [i >= numSlices], the count the manifest announces; for
    [0 <= i < numSlices] the codec is asked for the band
    [(i * SLICE_HEIGHT, min(SLICE_HEIGHT, height - i * SLICE_HEIGHT))],
    which is not empty and lies inside the image. *)
Theorem slice_index_range (i : Z) :
  parseInt index = Num i ->
  let n := JS.ceil_div height SLICE_HEIGHT in
  let y := i * SLICE_HEIGHT in
  let band := Z.min SLICE_HEIGHT (height - y) in
  ((handler net now req st).1
   = RespJson 404 (ErrorBody "Slice index out of bounds") <-> n <= i)
  /\ (0 <= i < n ->
      0 <= y /\ 0 < band <= SLICE_HEIGHT /\ y + band <= height
      /\ extract_calls (trace (handler net now req st).2)
         = extract_calls (trace st) ++ [(buf, Num 0, Num y, Num width, Num band)]
      /\ forall bytes,
           sharp_extract_jpeg buf (Num 0) (Num y) (Num width) (Num band) 90
           = Resolved bytes ->
           (handler net now req st).1
           = RespSend [("Content-Type", "image/jpeg");
                       ("Cache-Control", "public, max-age=31536000")] bytes).
Proof.
  intros Hparse n y band.
  pose proof (out_of_bounds_iff SLICE_HEIGHT height i Hheight Hslice) as Hiff.
  split; [split|].
  - intros H404. destruct (Z.le_gt_cases n i) as [Hge | Hlt]; [assumption|].
    destruct (index_below_count i Hparse Hlt) as (_ & Hres).
    rewrite Hres in H404.
    by destruct (sharp_extract_jpeg _ _ _ _ _ _).
  - intros Hge.
    rewrite (slice_request_runs_branch SLICE_HEIGHT baseUrl encodeURIComponent
               sharp_metadata sharp_extract_jpeg net now req st st1 url index buf
               width height Hurl Hurl_ne Hindex Hload Hmeta).
    unfold slice_branch. rewrite Hparse. cbn [JS.mul JS.ge].
    assert (Hout : (i * SLICE_HEIGHT >=? height) = true)
      by (apply Z.geb_le; apply Hiff in Hge; lia).
    by rewrite Hout.
  - intros [Hlo Hhi].
    destruct (index_below_count i Hparse Hhi) as (Hcalls & Hres).
    assert (Hy : 0 <= y) by (subst y; apply Z.mul_nonneg_nonneg; lia).
    assert (Hin : y < height) by (subst y n; lia).
    split; [exact Hy|]. split; [subst band; lia|]. split; [subst band; lia|].
    split; [exact Hcalls|].
    intros bytes Hbytes. fold y band in Hres. by rewrite Hres, Hbytes.
Qed.

(** The manifest and the slice branch agree.  Take any slice [s] of the
    manifest of the image; a request whose [index] is the decimal text the
    manifest printed in the link of [s] makes the handler ask the codec for
    exactly the band the manifest announced: top [y], the width and the
    height of [s]. *)
Theorem manifest_slice_is_extracted (k : nat) (s : SliceInfo) :
  slices (manifest SLICE_HEIGHT baseUrl encodeURIComponent url width height) !! k
  = Some s ->
  index = pretty (slice_index s) ->
  extract_calls (trace (handler net now req st).2)
  = extract_calls (trace st)
    ++ [(buf, Num 0, Num (slice_y s), Num (slice_width s), Num (slice_height s))]
  /\ forall bytes,
       sharp_extract_jpeg buf (Num 0) (Num (slice_y s)) (Num (slice_width s))
         (Num (slice_height s)) 90 = Resolved bytes ->
       (handler net now req st).1
       = RespSend [("Content-Type", "image/jpeg");
                   ("Cache-Control", "public, max-age=31536000")] bytes.
Proof.
  intros Hk Hprinted. cbn [manifest slices] in Hk.
  pose proof (lookup_lt_Some _ _ _ Hk) as Hlt.
  rewrite slices_loop_length in Hlt.
  apply slices_loop_lookup in Hk. destruct Hk as (Hi & Hy & Hb & Hw).
  rewrite Z.add_0_l in Hi, Hy, Hb.
  assert (Hparse : parseInt index = Num (Z.of_nat k)).
  { rewrite Hprinted, Hi. apply parseInt_pretty. lia. }
  pose proof (ceil_div_bounds height SLICE_HEIGHT Hslice) as Hn.
  assert (Hbelow : Z.of_nat k < JS.ceil_div height SLICE_HEIGHT) by lia.
  destruct (index_below_count (Z.of_nat k) Hparse Hbelow) as (Hcalls & Hres).
  rewrite Hy, Hb, Hw. split; [exact Hcalls|].
  intros bytes Hbytes. by rewrite Hres, Hbytes.
Qed.

End SliceRange.

(** ** More concrete requests *)

Lemma undecodable_download_stays_cached_witness :
  let garbage : Network := fun _ =>
    Resolved (mkResponse true 200 "OK" None (Resolved [Byte.x3c])) in
  let req := mkRequest (Some "u") None in
  (Demo.handler garbage 5 req initial_state).1
  = RespJson 500 (ErrorBody "Input buffer contains unsupported image format")
  /\ imageCache (Demo.handler garbage 5 req initial_state).2 !! "u"
     = Some (mkEntry [Byte.x3c] 5).
Proof.
  pose proof
    (undecodable_download_stays_cached Process.SLICE_HEIGHT
       "http://localhost:3001" (fun s => s) Demo.metadata Demo.extract_jpeg
       (fun _ => Resolved (mkResponse true 200 "OK" None (Resolved [Byte.x3c])))
       5 (mkRequest (Some "u") None) initial_state "u"
       (mkResponse true 200 "OK" None (Resolved [Byte.x3c])) [Byte.x3c]
       "Input buffer contains unsupported image format"
       eq_refl ltac:(discriminate) eq_refl eq_refl eq_refl eq_refl eq_refl)
    as (Hres & Hsaved & _).
  split; [exact Hres | exact Hsaved].
Defined.


Lemma download_headers_never_matter_witness :
  let req := mkRequest (Some "u") None in
  (Demo.handler (Demo.serves (Some "999")) 5 req initial_state).1
  = (Demo.handler (Demo.serves None) 5 req initial_state).1
  /\ imageCache (Demo.handler (Demo.serves (Some "999")) 5 req initial_state).2
     = imageCache (Demo.handler (Demo.serves None) 5 req initial_state).2.
Proof.
  refine (download_headers_never_matter Process.SLICE_HEIGHT
            "http://localhost:3001" (fun s => s) Demo.metadata Demo.extract_jpeg
            (Demo.serves (Some "999")) (Demo.serves None) 5
            (mkRequest (Some "u") None) initial_state "u"
            (mkResponse true 200 "OK" (Some "999") (Resolved Demo.tall))
            (mkResponse true 200 "OK" None (Resolved Demo.tall)) Demo.tall
            _ _ _ _ _ _ _ _ _); try reflexivity.
  discriminate.
Defined.

Lemma refetch_after_sweep_replaces_entry_witness :
  let fresh : Network := fun _ =>
    Resolved (mkResponse true 200 "OK" None (Resolved [Byte.x04; Byte.x0f])) in
  let swept := sweep Process.CACHE_TTL 400000 Demo.cached in
  imageCache swept !! "u" = None
  /\ imageCache (Demo.handler fresh 400001 (mkRequest (Some "u") None) swept).2
     !! "u"
     = Some (mkEntry [Byte.x04; Byte.x0f] 400001).
Proof.
  pose proof
    (refetch_after_sweep_replaces_entry Process.SLICE_HEIGHT Process.CACHE_TTL
       "http://localhost:3001" (fun s => s) Demo.metadata Demo.extract_jpeg
       (fun _ => Resolved (mkResponse true 200 "OK" None
                             (Resolved [Byte.x04; Byte.x0f])))
       400001 400000 (mkRequest (Some "u") None) Demo.cached "u"
       (mkEntry Demo.tall 0)
       (mkResponse true 200 "OK" None (Resolved [Byte.x04; Byte.x0f]))
       [Byte.x04; Byte.x0f]
       eq_refl ltac:(discriminate) eq_refl eq_refl eq_refl eq_refl eq_refl)
    as (Hgone & Hnew & _).
  split; [exact Hgone | exact Hnew].
Defined.

Lemma slice_index_range_witness :
  (Demo.handler (Demo.serves None) 5 (mkRequest (Some "u") (Some "7")) Demo.cached).1
  = RespJson 404 (ErrorBody "Slice index out of bounds")
  /\ extract_calls
       (trace (Demo.handler (Demo.serves None) 5 (mkRequest (Some "u") (Some "1"))
                 Demo.cached).2)
     = [(Demo.tall, Num 0, Num 1500, Num 4, Num 1500)].
Proof.
  split.
  - apply (proj1
      (slice_index_range Process.SLICE_HEIGHT "http://localhost:3001"
         (fun s => s) Demo.metadata Demo.extract_jpeg (Demo.serves None) 5
         (mkRequest (Some "u") (Some "7")) Demo.cached
         (mkState (imageCache Demo.cached) [LogUsingCached "u"])
         "u" "7" Demo.tall 4 3200
         eq_refl ltac:(discriminate) eq_refl eq_refl eq_refl eq_refl eq_refl
         7 eq_refl)).
    vm_compute. discriminate.
  - apply (proj2
      (slice_index_range Process.SLICE_HEIGHT "http://localhost:3001"
         (fun s => s) Demo.metadata Demo.extract_jpeg (Demo.serves None) 5
         (mkRequest (Some "u") (Some "1")) Demo.cached
         (mkState (imageCache Demo.cached) [LogUsingCached "u"])
         "u" "1" Demo.tall 4 3200
         eq_refl ltac:(discriminate) eq_refl eq_refl eq_refl eq_refl eq_refl
         1 eq_refl)).
    split; [discriminate | reflexivity].
Defined.

Lemma manifest_slice_is_extracted_witness :
  extract_calls
    (trace (Demo.handler (Demo.serves None) 5 (mkRequest (Some "u") (Some "2"))
              Demo.cached).2)
  = [(Demo.tall, Num 0, Num 3000, Num 4, Num 200)].
Proof.
  apply (proj1
    (manifest_slice_is_extracted Process.SLICE_HEIGHT "http://localhost:3001"
       (fun s => s) Demo.metadata Demo.extract_jpeg (Demo.serves None) 5
       (mkRequest (Some "u") (Some "2")) Demo.cached
       (mkState (imageCache Demo.cached) [LogUsingCached "u"])
       "u" "2" Demo.tall 4 3200
       eq_refl ltac:(discriminate) eq_refl eq_refl eq_refl eq_refl eq_refl
       2 (mkSlice 2 "http://localhost:3001/slice?url=u&index=2" 3000 200 4)
       eq_refl eq_refl)).
Defined.

(** ** Failures are printed *)

Lemma console_errors_app (a b : list Event) :
  console_errors (a ++ b) = console_errors a ++ console_errors b.
Proof. apply omap_app. Qed.

Lemma load_image_console (net : Network) (now : Z) (url : string) (st : State) :
  console_errors (trace (load_image net now url st).2) = console_errors (trace st).
Proof.
  destruct (imageCache st !! url) as [entry|] eqn:Hk.
  { rewrite (load_image_hit _ _ _ _ entry Hk). simpl.
    rewrite console_errors_app. apply app_nil_r. }
  destruct (net url) as [response|message] eqn:Hnet.
  - destruct (ok response) eqn:Hok.
    + destruct (body response) as [buf|message] eqn:Hbody.
      * rewrite (load_image_downloaded _ _ _ _ response buf) by assumption.
        simpl. rewrite !console_errors_app. simpl.
        unfold size_warning. destruct (content_length response);
          [destruct (size_mismatch _ _)|]; simpl; apply app_nil_r.
      * rewrite (load_image_body_rejected _ _ _ _ response message) by assumption.
        simpl. rewrite console_errors_app. apply app_nil_r.
    + rewrite (load_image_not_ok _ _ _ _ response) by assumption.
      simpl. rewrite console_errors_app. apply app_nil_r.
  - rewrite (load_image_fetch_rejected _ _ _ _ message) by assumption.
    simpl. rewrite console_errors_app. apply app_nil_r.
Qed.

Section Failures.

Variables (SLICE_HEIGHT : Z).
Variables (baseUrl : string) (encodeURIComponent : string -> string).
Variable sharp_metadata : Buffer -> outcome (Z * Z).
Variable sharp_extract_jpeg :
  Buffer -> number -> number -> number -> number -> Z -> outcome Buffer.

Abbreviation respond_with :=
  (respond SLICE_HEIGHT baseUrl encodeURIComponent sharp_metadata sharp_extract_jpeg).
Abbreviation handler :=
  (slice_handler SLICE_HEIGHT baseUrl encodeURIComponent sharp_metadata
     sharp_extract_jpeg).

Lemma respond_console (url : string) (index : option string) (buf : Buffer)
    (st : State) :
  let r := catch (respond_with url index buf st) in
  console_errors (trace r.2) = console_errors (trace st) ++ printed_for r.1.
Proof.
  unfold respond, bind, await.
  destruct (sharp_metadata buf) as [[width height]|message]; simpl;
    [|by rewrite console_errors_app].
  destruct index as [index|]; simpl; [|by rewrite app_nil_r].
  unfold slice_branch, bind, await, emit, ret.
  destruct (JS.ge _ _); simpl; [by rewrite app_nil_r|].
  destruct (sharp_extract_jpeg _ _ _ _ _ _); simpl;
    rewrite !console_errors_app; simpl; by rewrite ?app_nil_r.
Qed.

(** No failure is swallowed and nothing else is reported as one: a request
    prints with [console.error] exactly when it answers 500, once, and what
    it prints is the message of the response. *)
Theorem failures_are_printed
    (net : Network) (now : Z) (req : Request) (st : State) :
  console_errors (trace (handler net now req st).2)
  = console_errors (trace st) ++ printed_for (handler net now req st).1.
Proof.
  destruct (url_cases req) as [Hno | (url & Hq & Hne)].
  { rewrite (handler_no_url SLICE_HEIGHT baseUrl encodeURIComponent
               sharp_metadata sharp_extract_jpeg) by assumption.
    simpl. by rewrite app_nil_r. }
  rewrite (handler_via_load SLICE_HEIGHT baseUrl encodeURIComponent
             sharp_metadata sharp_extract_jpeg net now req st url Hq Hne).
  pose proof (load_image_console net now url st) as Hload.
  destruct (load_image net now url st) as [[buf|message] st1]; simpl in Hload.
  - rewrite <- Hload. apply respond_console.
  - simpl. by rewrite console_errors_app, Hload.
Qed.

End Failures.

Lemma strip_trailing_slash_one_witness :
  Env.strip_trailing_slash "https://manga.onrender.com/"
  = "https://manga.onrender.com".
Proof.
  apply (proj1 (strip_trailing_slash_one "https://manga.onrender.com")).
Defined.

(** ** Requests that overlap *)

(** A request that misses the cache is its first lines followed by the rest
    from the settled download on; when nothing else runs in between, the
    rest starts on the state the first lines left. *)
Lemma load_image_miss_settled (net : Network) (now : Z) (url : string) (st : State) :
  imageCache st !! url = None ->
  load_image net now url st
  = load_settled now url (net url)
      (mkState (imageCache st)
         (trace st ++ [LogDownloading url; FetchCall url (net url)])).
Proof.
  intros Hmiss. unfold load_image, load_settled, bind, cache_get, fetch, await, emit.
  rewrite Hmiss. simpl. by rewrite <- app_assoc.
Qed.

(** What the save does to the cache it finds: one unconditional write
    under the key after a download that went through, nothing otherwise. *)
Lemma load_settled_cache (now : Z) (url : string) (settled : outcome Response)
    (st : State) :
  imageCache (load_settled now url settled st).2
  = match settled with
    | Resolved response =>
        match ok response, body response with
        | true, Resolved buf => <[url := mkEntry buf now]> (imageCache st)
        | _, _ => imageCache st
        end
    | Rejected _ => imageCache st
    end.
Proof.
  unfold load_settled, bind, await, throw.
  destruct settled as [response|message]; [|reflexivity].
  destruct (ok response); simpl; [|reflexivity].
  destruct (body response) as [buf|message]; [|reflexivity].
  destruct (content_length response) as [expected|]; [|reflexivity].
  by destruct (size_mismatch (Some expected) buf).
Qed.

Section Overlap.

Variables (SLICE_HEIGHT : Z).
Variables (baseUrl : string) (encodeURIComponent : string -> string).
Variable sharp_metadata : Buffer -> outcome (Z * Z).
Variable sharp_extract_jpeg :
  Buffer -> number -> number -> number -> number -> Z -> outcome Buffer.

Abbreviation handler :=
  (slice_handler SLICE_HEIGHT baseUrl encodeURIComponent sharp_metadata
     sharp_extract_jpeg).
Abbreviation settled_rest :=
  (slice_settled SLICE_HEIGHT baseUrl encodeURIComponent sharp_metadata
     sharp_extract_jpeg).

Lemma slice_settled_cache (now : Z) (url : string) (index : option string)
    (settled : outcome Response) (st : State) :
  imageCache (settled_rest now url index settled st).2
  = imageCache (load_settled now url settled st).2.
Proof.
  unfold slice_settled, bind. rewrite catch_cache.
  destruct (load_settled now url settled st) as [[buf|message] st1];
    [|reflexivity].
  apply (respond_frame SLICE_HEIGHT baseUrl encodeURIComponent sharp_metadata
           sharp_extract_jpeg url index buf st1).
Qed.

(** The cache is read at line 63 and written at line 102, with the download
    awaited in between.  A request that finds its key at line 63 leaves the
    cache as it is.  A request that misses goes on, once the download has
    settled, on whatever the cache has become by then: every key other than
    its [url] is left as it is; a download that failed changes nothing; a
    download that went through is saved under the [url] without a second
    look, so it replaces the entry that an overlapping request may have
    saved in the meantime. *)
Theorem request_writes_only_its_key
    (net : Network) (now : Z) (req : Request) (st : State) (url : string) :
  query_url req = Some url -> url <> EmptyString ->
  (forall entry, imageCache st !! url = Some entry ->
     imageCache (handler net now req st).2 = imageCache st)
  /\ (imageCache st !! url = None ->
      handler net now req st
      = settled_rest now url (query_index req) (net url)
          (mkState (imageCache st)
             (trace st ++ [LogDownloading url; FetchCall url (net url)])))
  /\ (forall now' index settled st' k, k <> url ->
        imageCache (settled_rest now' url index settled st').2 !! k
        = imageCache st' !! k)
  /\ (forall now' index response buf st',
        ok response = true -> body response = Resolved buf ->
        imageCache (settled_rest now' url index (Resolved response) st').2
        = <[url := mkEntry buf now']> (imageCache st'))
  /\ (forall now' index settled st',
        (forall response buf, settled = Resolved response ->
           ok response = true -> body response <> Resolved buf) ->
        imageCache (settled_rest now' url index settled st').2 = imageCache st').
Proof.
  intros Hq Hne. split; [|split; [|split; [|split]]].
  - intros entry Hhit.
    by destruct (cached_entry_served SLICE_HEIGHT baseUrl encodeURIComponent
                   sharp_metadata sharp_extract_jpeg net now req st url entry
                   Hq Hne Hhit) as (_ & _ & Hc).
  - intros Hmiss.
    rewrite (handler_via_load SLICE_HEIGHT baseUrl encodeURIComponent
               sharp_metadata sharp_extract_jpeg net now req st url Hq Hne).
    unfold slice_settled, bind.
    by rewrite (load_image_miss_settled net now url st Hmiss).
  - intros now' index settled st' k Hk.
    rewrite slice_settled_cache, load_settled_cache.
    destruct settled as [response|message]; [|reflexivity].
    destruct (ok response); [|reflexivity].
    destruct (body response) as [buf|message]; [|reflexivity].
    by apply lookup_insert_ne.
  - intros now' index response buf st' Hok Hbody.
    by rewrite slice_settled_cache, load_settled_cache, Hok, Hbody.
  - intros now' index settled st' Hfailed.
    rewrite slice_settled_cache, load_settled_cache.
    destruct settled as [response|message]; [|reflexivity].
    destruct (ok response) eqn:Hok; [|reflexivity].
    destruct (body response) as [buf|message] eqn:Hbody; [|reflexivity].
    by destruct (Hfailed response buf eq_refl Hok).
Qed.

End Overlap.

(** Two requests for ["u"] that overlap: both miss the empty cache and both
    download.  The first download to settle saves its bytes at time 10; the
    second settles at time 20 on the cache that now has the key, and its
    save replaces the entry. *)
Example overlapping_requests_last_save_wins :
  let first := mkResponse true 200 "OK" None (Resolved Demo.tall) in
  let second := mkResponse true 200 "OK" None (Resolved [Byte.x04; Byte.x0f]) in
  let rest :=
    slice_settled Process.SLICE_HEIGHT "http://localhost:3001" (fun s => s)
      Demo.metadata Demo.extract_jpeg in
  let after_first := (rest 10 "u" None (Resolved first) initial_state).2 in
  let after_second := (rest 20 "u" None (Resolved second) after_first).2 in
  imageCache after_first !! "u" = Some (mkEntry Demo.tall 10)
  /\ imageCache after_second !! "u" = Some (mkEntry [Byte.x04; Byte.x0f] 20).
Proof. split; reflexivity. Qed.

Lemma request_writes_only_its_key_witness :
  imageCache
    (slice_settled Process.SLICE_HEIGHT "http://localhost:3001" (fun s => s)
       Demo.metadata Demo.extract_jpeg 20 "u" None
       (Resolved (mkResponse true 200 "OK" None (Resolved [Byte.x04; Byte.x0f])))
       Demo.cached).2
  = <["u" := mkEntry [Byte.x04; Byte.x0f] 20]> (imageCache Demo.cached).
Proof.
  apply (proj1 (proj2 (proj2 (proj2
    (request_writes_only_its_key Process.SLICE_HEIGHT "http://localhost:3001"
       (fun s => s) Demo.metadata Demo.extract_jpeg (Demo.serves None) 5
       (mkRequest (Some "u") None) Demo.cached "u"
       eq_refl ltac:(discriminate)))))
    20 None
    (mkResponse true 200 "OK" None (Resolved [Byte.x04; Byte.x0f]))
    [Byte.x04; Byte.x0f] Demo.cached eq_refl eq_refl).
Defined.

(** An index written after a no-break space (U+00A0, the bytes C2 A0) or
    after a byte order mark (U+FEFF, the bytes EF BB BF) is read as the
    integer that follows, and the slice is served. *)
Example parseInt_skips_no_break_space :
  parseInt (String (ascii_of_N 194) (String (ascii_of_N 160) "1")) = Num 1
  /\ parseInt (String (ascii_of_N 239) (String (ascii_of_N 187)
                 (String (ascii_of_N 191) "-2"))) = Num (-2)
  /\ (Demo.handler (Demo.serves None) 5
        (mkRequest (Some "u")
           (Some (String (ascii_of_N 194) (String (ascii_of_N 160) "1"))))
        Demo.cached).1
     = RespSend [("Content-Type", "image/jpeg");
                 ("Cache-Control", "public, max-age=31536000")]
         [Byte.xff; Byte.xd8; Byte.xff; Byte.xd9].
Proof. repeat split. Qed.
